(** * nodriver/core/config.py: a shallow embedding and its properties

    The development follows the layout of [config.py]:

    - Python strings and the few [str] methods the module calls;
    - Python values and insertion-ordered dictionaries, [prefs_to_json];
    - exceptions, the world (file system, entropy, log) and its monad;
    - [posixpath], [pathlib] and the file-system calls of the module;
    - the host (platform probes) and [find_chrome_executable];
    - the [Config] class and its methods;
    - the properties.

    Conventions.  A Python [dict] is an association list in insertion order
    with pairwise distinct keys; [dict_set] overwrites in place or appends,
    as [d[k] = v] does.  A [str] is a [string]; [str.lower] acts on the ASCII
    letters.  The file system is a tree without links and without
    permissions, and a regular file is known by what [json.load] and
    [zipfile] make of it.  Paths are POSIX paths; they are resolved
    component by component as the kernel does it, a relative path from the
    root: [..] steps back from a directory that exists, and a slash or a
    dot after a name asks for a directory of that name.  A method that
    raises leaves the changes it made to the world in place.

    Left out: [__repr__] and the debug lines the locator logs. *)

From Stdlib Require Import String Ascii List ZArith Bool Arith Lia Permutation.
From Stdlib Require Import Sorted.
Import ListNotations.

Local Open Scope string_scope.
Local Open Scope list_scope.

Set Implicit Arguments.
Set Warnings "-register-all,-abstract-large-number".

(* ================================================================= *)
(** ** Python strings *)

Module Str.

Definition eqb_char (a b : ascii) : bool := Ascii.eqb a b.

(** [c.lower()] on one ASCII character. *)
Definition lower_char (c : ascii) : ascii :=
  let n := nat_of_ascii c in
  if ((65 <=? n)%nat && (n <=? 90)%nat)%bool then ascii_of_nat (n + 32) else c.

(** [s.lower()]. *)
Fixpoint lower (s : string) : string :=
  match s with
  | EmptyString => EmptyString
  | String c rest => String (lower_char c) (lower rest)
  end.

(** [s.startswith(p)]. *)
Fixpoint startswith (p s : string) : bool :=
  match p, s with
  | EmptyString, _ => true
  | String a p', String b s' => eqb_char a b && startswith p' s'
  | String _ _, EmptyString => false
  end.

(** [x in s] for strings: [x] occurs in [s] as a substring. *)
Fixpoint contains (x s : string) : bool :=
  startswith x s ||
  match s with
  | EmptyString => false
  | String _ rest => contains x rest
  end.

(** [c in s] for a one-character [c]. *)
Fixpoint has_char (c : ascii) (s : string) : bool :=
  match s with
  | EmptyString => false
  | String a rest => eqb_char a c || has_char c rest
  end.

(** [s.split(c, 1)] when [c in s]: the text before the first [c] and the
    text after it; [None] when [c] does not occur. *)
Fixpoint partition (c : ascii) (s : string) : option (string * string) :=
  match s with
  | EmptyString => None
  | String a rest =>
      if eqb_char a c then Some (EmptyString, rest)
      else match partition c rest with
           | Some (h, t) => Some (String a h, t)
           | None => None
           end
  end.

(** [s.split(c)]: always at least one piece. *)
Fixpoint split (c : ascii) (s : string) : list string :=
  match s with
  | EmptyString => [EmptyString]
  | String a rest =>
      if eqb_char a c then EmptyString :: split c rest
      else match split c rest with
           | piece :: pieces => String a piece :: pieces
           | [] => [String a EmptyString]
           end
  end.

(** [sep.join(pieces)]. *)
Fixpoint join (sep : string) (pieces : list string) : string :=
  match pieces with
  | [] => EmptyString
  | [p] => p
  | p :: rest => p ++ sep ++ join sep rest
  end.

(** [s.endswith(c)] for one character. *)
Fixpoint endswith_char (c : ascii) (s : string) : bool :=
  match s with
  | EmptyString => false
  | String a EmptyString => eqb_char a c
  | String _ rest => endswith_char c rest
  end.

(** [s.rstrip(c)]. *)
Fixpoint rstrip (c : ascii) (s : string) : string :=
  match s with
  | EmptyString => EmptyString
  | String a rest =>
      match rstrip c rest with
      | EmptyString => if eqb_char a c then EmptyString else String a EmptyString
      | r => String a r
      end
  end.

(** [in] on a list of strings. *)
Definition mem (x : string) (l : list string) : bool :=
  existsb (String.eqb x) l.

(** [len(s)]. *)
Definition len (s : string) : nat := String.length s.

(** ["%s" % n] for an [int]. *)
Fixpoint digits (fuel : nat) (n : nat) (acc : string) : string :=
  match fuel with
  | O => acc
  | S fuel' =>
      let acc' := String (ascii_of_nat (48 + n mod 10)) acc in
      if (n / 10 =? 0)%nat then acc' else digits fuel' (n / 10) acc'
  end.

Definition of_nat (n : nat) : string := digits (S n) n EmptyString.

Definition of_Z (z : Z) : string :=
  match z with
  | Z0 => "0"
  | Zpos p => of_nat (Pos.to_nat p)
  | Zneg p => "-" ++ of_nat (Pos.to_nat p)
  end.

End Str.

(* ================================================================= *)
(** ** Python values and dictionaries *)

(** The values a preference mapping or a JSON document holds.  [VObject]
    stands for any other Python object; [json.dump] does not accept it. *)
Inductive value : Type :=
| VNone
| VBool (b : bool)
| VInt (n : Z)
| VStr (s : string)
| VList (items : list value)
| VDict (d : list (string * value))
| VObject (repr : string).

Definition dict : Type := list (string * value).

(** [isinstance(v, dict)]. *)
Definition is_dict (v : value) : bool :=
  match v with VDict _ => true | _ => false end.

Section Dict.
Variable V : Type.

(** [d.get(key)] / [d[key]]. *)
Fixpoint dict_get (key : string) (d : list (string * V)) : option V :=
  match d with
  | [] => None
  | (k, v) :: rest => if String.eqb k key then Some v else dict_get key rest
  end.

(** [key in d]. *)
Definition dict_mem (key : string) (d : list (string * V)) : bool :=
  match dict_get key d with Some _ => true | None => false end.

(** [d[key] = v]: an existing key keeps its position, a new key is
    appended. *)
Fixpoint dict_set (key : string) (v : V) (d : list (string * V))
  : list (string * V) :=
  match d with
  | [] => [(key, v)]
  | (k, w) :: rest =>
      if String.eqb k key then (k, v) :: rest
      else (k, w) :: dict_set key v rest
  end.

(** [d.update(other)]. *)
Definition dict_update (d other : list (string * V)) : list (string * V) :=
  fold_left (fun acc kv => dict_set (fst kv) (snd kv) acc) other d.

Definition keys (d : list (string * V)) : list string := map fst d.

End Dict.

(* ================================================================= *)
(** ** prefs_to_json *)

(** [deep_merge(dict1, dict2)], by recursion on [dict2]: the loop over
    [dict2.items()] is the inner [fix], its accumulator is [result]. *)
Fixpoint deep_merge_into (v2 : value) (dict1 : dict) {struct v2} : dict :=
  match v2 with
  | VDict dict2 =>
      (fix loop (items : dict) (result : dict) {struct items} : dict :=
         match items with
         | [] => result
         | (key, value) :: rest =>
             loop rest
               (match dict_get key result with
                | Some (VDict r) =>
                    if is_dict value
                    then dict_set key (VDict (deep_merge_into value r)) result
                    else dict_set key value result
                | _ => dict_set key value result
                end)
         end) dict2 dict1
  | _ => dict1
  end.

Definition deep_merge (dict1 dict2 : dict) : dict :=
  deep_merge_into (VDict dict2) dict1.

(** One turn of the loop of [deep_merge]. *)
Definition merge_item (result : dict) (kv : string * value) : dict :=
  let (key, value) := kv in
  match dict_get key result, value with
  | Some (VDict r), VDict d => dict_set key (VDict (deep_merge r d)) result
  | _, _ => dict_set key value result
  end.

Definition dot : ascii := "."%char.

(** [undot_key(key, value)]; the recursion is on a suffix of [key], [fuel]
    bounds it by the length of the key. *)
Fixpoint undot_key_fuel (fuel : nat) (key : string) (value : value) : dict :=
  match fuel with
  | O => [(key, value)]
  | S fuel' =>
      match Str.partition dot key with
      | Some (key', rest) => [(key', VDict (undot_key_fuel fuel' rest value))]
      | None => [(key, value)]
      end
  end.

Definition undot_key (key : string) (value : value) : dict :=
  undot_key_fuel (Str.len key) key value.

Definition prefs_to_json (dot_prefs : dict) : dict :=
  fold_left (fun result kv => deep_merge result (undot_key (fst kv) (snd kv)))
            dot_prefs [].

(* ================================================================= *)
(** ** Exceptions, the world and its monad *)

(** The exceptions the module raises or meets; all derive from
    [Exception]. *)
Inductive exn : Type :=
| FileNotFoundError (msg : string)
| FileExistsError
| NotADirectoryError
| IsADirectoryError
| JSONDecodeError
| UnicodeDecodeError
| BadZipFile
| AttributeError (msg : string)
| TypeError (msg : string)
| ValueError (msg : string).

(** A node of the file system.  A regular file is known by what the
    library calls of the module make of its bytes: a JSON document, a zip
    archive, the head of a document that [json.dump] left behind when it
    raised, or anything else. *)
Inductive node : Type :=
| Dir (entries : list (string * node))
| JsonFile (doc : value)
| PartialJson (doc : value)
| ZipFile (members : list (string * node))
| OtherFile (bytes : string).

Inductive syscall : Type :=
| Sys_stat (path : string)
| Sys_makedirs (path : string)
| Sys_mkdir (path : string)
| Sys_open_r (path : string)
| Sys_open_w (path : string)
| Sys_scandir (path : string)
| Sys_extract (path : string).

Inductive log_record : Type :=
| LogInfo (msg : string)
| LogWarning (msg : string) (cause : exn).

Record World : Type := mkWorld {
  fs : node;                    (* the tree under the root directory *)
  entropy : nat -> string;      (* the random names the process will draw *)
  cursor : nat;                 (* how many it has drawn *)
  gettempdir : string;          (* tempfile.gettempdir(), an absolute path *)
  records : list log_record;    (* what [logger] has emitted *)
  trace : list syscall          (* the file-system calls made so far *)
}.

Inductive outcome (A : Type) : Type :=
| Return (a : A)
| Raise (e : exn).
Arguments Return {A} a.
Arguments Raise {A} e.

Definition M (A : Type) : Type := World -> outcome A * World.

Definition ret {A} (a : A) : M A := fun w => (Return a, w).
Definition raise {A} (e : exn) : M A := fun w => (Raise e, w).
Definition bind {A B} (m : M A) (k : A -> M B) : M B :=
  fun w => match m w with
           | (Return a, w') => k a w'
           | (Raise e, w') => (Raise e, w')
           end.

(** [try: body  except Exception as e: handler(e)]; what [body] did to the
    world before it raised stays done. *)
Definition try_except {A} (body : M A) (handler : exn -> M A) : M A :=
  fun w => match body w with
           | (Return a, w') => (Return a, w')
           | (Raise e, w') => handler e w'
           end.

Declare Scope py_scope.
Delimit Scope py_scope with py.
Notation "x <- m ;; k" := (bind m (fun x => k))
  (at level 61, m at next level, right associativity) : py_scope.
Notation "m ;; k" := (bind m (fun _ => k))
  (at level 61, right associativity) : py_scope.
Local Open Scope py_scope.

Definition set_fs (w : World) (t : node) : World :=
  mkWorld t (entropy w) (cursor w) (gettempdir w) (records w) (trace w).

Definition add_trace (w : World) (c : syscall) : World :=
  mkWorld (fs w) (entropy w) (cursor w) (gettempdir w) (records w)
          (trace w ++ [c]).

Definition add_record (w : World) (r : log_record) : World :=
  mkWorld (fs w) (entropy w) (cursor w) (gettempdir w) (records w ++ [r])
          (trace w).

Definition advance (w : World) : World :=
  mkWorld (fs w) (entropy w) (S (cursor w)) (gettempdir w) (records w)
          (trace w).

(** Every call into the file system leaves its mark on the trace. *)
Definition sys (c : syscall) : M unit :=
  fun w => (Return tt, add_trace w c).

Definition logger_info (msg : string) : M unit :=
  fun w => (Return tt, add_record w (LogInfo msg)).

Definition logger_warning (msg : string) (cause : exn) : M unit :=
  fun w => (Return tt, add_record w (LogWarning msg cause)).

(** The next random name of the process. *)
Definition draw : M string :=
  fun w => (Return (entropy w (cursor w)), advance w).

(* ================================================================= *)
(** ** posixpath *)

Module posixpath.

Definition sep : ascii := "/"%char.

(** [os.path.join(a, *p)]. *)
Fixpoint join (a : string) (p : list string) : string :=
  match p with
  | [] => a
  | b :: rest =>
      join (if Str.startswith "/" b then b
            else if (a =? "") || Str.endswith_char sep a then a ++ b
                 else a ++ "/" ++ b) rest
  end.

(** [p[:p.rfind('/') + 1]]. *)
Fixpoint head_of (p : string) : string :=
  match p with
  | EmptyString => EmptyString
  | String a rest =>
      if Str.has_char sep rest then String a (head_of rest)
      else if Str.eqb_char a sep then String a EmptyString
           else EmptyString
  end.

(** [s == '/' * len(s)]. *)
Fixpoint all_sep (s : string) : bool :=
  match s with
  | EmptyString => true
  | String a rest => Str.eqb_char a sep && all_sep rest
  end.

(** [os.path.dirname(p)]. *)
Definition dirname (p : string) : string :=
  let head := head_of p in
  if negb (head =? "") && negb (all_sep head) then Str.rstrip sep head
  else head.

Definition last_is_dotdot (comps : list string) : bool :=
  match rev comps with
  | c :: _ => c =? ".."
  | [] => false
  end.

Definition is_nil {A} (l : list A) : bool :=
  match l with [] => true | _ => false end.

(** One turn of the loop of [normpath] over the components. *)
Definition norm_step (initial_slashes : nat) (new_comps : list string)
           (comp : string) : list string :=
  if (comp =? "") || (comp =? ".") then new_comps
  else if negb (comp =? "..")
          || ((initial_slashes =? 0)%nat && is_nil new_comps)
          || last_is_dotdot new_comps
       then new_comps ++ [comp]
       else removelast new_comps.

Fixpoint slashes (n : nat) : string :=
  match n with O => EmptyString | S n' => String sep (slashes n') end.

(** [os.path.normpath(path)]. *)
Definition normpath (path : string) : string :=
  if path =? "" then "."
  else
    let initial_slashes :=
      if Str.startswith "/" path
      then if Str.startswith "//" path && negb (Str.startswith "///" path)
           then 2%nat else 1%nat
      else 0%nat in
    let comps := Str.split sep path in
    let new_comps := fold_left (norm_step initial_slashes) comps [] in
    let path' := (slashes initial_slashes ++ Str.join "/" new_comps)%string in
    if path' =? "" then "." else path'.

End posixpath.

(* ================================================================= *)
(** ** The file system *)

(** The node that the names [comps] lead to from the node [n], each name an
    entry of the directory before it. *)
Fixpoint resolve (comps : list string) (n : node) : option node :=
  match comps with
  | [] => Some n
  | c :: rest =>
      match n with
      | Dir entries =>
          match dict_get c entries with
          | Some child => resolve rest child
          | None => None
          end
      | _ => None
      end
  end.

Definition is_dir_node (n : node) : bool :=
  match n with Dir _ => true | _ => false end.

(** One component of a path, taken in the place that the names [pos] lead
    to from the root, as the kernel resolves it.  That place has to be a
    directory; an empty component and [.] stay in it, [..] steps back to
    its parent (the root is its own), and a name has to be one of its
    entries. *)
Definition step (root : node) (pos : list string) (comp : string)
  : outcome (list string) :=
  match resolve pos root with
  | Some (Dir entries) =>
      if (comp =? "") || (comp =? ".") then Return pos
      else if comp =? ".." then Return (removelast pos)
      else match dict_get comp entries with
           | Some _ => Return (pos ++ [comp])
           | None => Raise (FileNotFoundError "No such file or directory")
           end
  | _ => Raise NotADirectoryError
  end.

Fixpoint walk (root : node) (comps : list string) (pos : list string)
  : outcome (list string) :=
  match comps with
  | [] => Return pos
  | c :: rest =>
      match step root pos c with
      | Return pos' => walk root rest pos'
      | Raise e => Raise e
      end
  end.

(** Where a path leads: the names from the root down to the node it names.
    A relative path starts at the root as well; the empty path names
    nothing. *)
Definition locate (root : node) (path : string) : outcome (list string) :=
  if path =? "" then Raise (FileNotFoundError "No such file or directory")
  else walk root (Str.split posixpath.sep path) [].

(** The node a path names in the tree [root], if it names one. *)
Definition node_at (root : node) (path : string) : option node :=
  match locate root path with
  | Return pos => resolve pos root
  | Raise _ => None
  end.

Definition lookup (path : string) (w : World) : option node :=
  node_at (fs w) path.

(** The tree after the entry [comps] of an existing directory is created
    or replaced by [new]; [exists_ok] tells whether an entry of that name
    may be there already ([open(.., "w+")]) or not ([os.mkdir]). *)
Fixpoint place (exists_ok : bool) (comps : list string) (new : node) (n : node)
  : outcome node :=
  match n with
  | Dir entries =>
      match comps with
      | [] => Raise (if exists_ok then IsADirectoryError else FileExistsError)
      | [c] =>
          match dict_get c entries with
          | Some (Dir _) =>
              Raise (if exists_ok then IsADirectoryError else FileExistsError)
          | Some _ =>
              if exists_ok then Return (Dir (dict_set c new entries))
              else Raise FileExistsError
          | None => Return (Dir (entries ++ [(c, new)]))
          end
      | c :: rest =>
          match dict_get c entries with
          | Some child =>
              match place exists_ok rest new child with
              | Return child' => Return (Dir (dict_set c child' entries))
              | Raise e => Raise e
              end
          | None => Raise (FileNotFoundError "No such file or directory")
          end
      end
  | _ => Raise NotADirectoryError
  end.

(** The tree after [path] is created, or replaced, by [new]: the path up
    to its last component has to lead to a directory, and the last
    component is the name of the entry.  A path that ends with a slash, with
    [.] or with [..] names a directory and is refused. *)
Definition create (exists_ok : bool) (path : string) (new : node) (root : node)
  : outcome node :=
  if path =? "" then Raise (FileNotFoundError "No such file or directory")
  else
    let comps := Str.split posixpath.sep path in
    match walk root (removelast comps) [] with
    | Raise e => Raise e
    | Return pos =>
        let name := last comps "" in
        if (name =? "") || (name =? ".") || (name =? "..")
        then match resolve pos root with
             | Some (Dir _) =>
                 Raise (if exists_ok then IsADirectoryError else FileExistsError)
             | _ => Raise NotADirectoryError
             end
        else place exists_ok (pos ++ [name]) new root
    end.

(** [os.makedirs(path, exist_ok=True)] component by component.  The
    function calls itself on the head of the path as long as the head does
    not exist and then makes the directory with [os.mkdir], so the
    directories come into being from left to right, each in the place the
    components before it lead to; one that is a directory already is
    entered.  A regular file in the way is FileExistsError when it is the
    last name of the path and NotADirectoryError when the path goes on.
    What was made before a failure stays. *)
Fixpoint makedirs_walk (comps : list string) (pos : list string) (root : node)
  : outcome unit * node :=
  match comps with
  | [] => (Return tt, root)
  | c :: rest =>
      match resolve pos root with
      | Some (Dir entries) =>
          if (c =? "") || (c =? ".") then makedirs_walk rest pos root
          else if c =? ".." then makedirs_walk rest (removelast pos) root
          else match dict_get c entries with
               | Some (Dir _) => makedirs_walk rest (pos ++ [c]) root
               | Some _ =>
                   (Raise (if forallb (String.eqb "") rest then FileExistsError
                           else NotADirectoryError), root)
               | None =>
                   match place false (pos ++ [c]) (Dir []) root with
                   | Return root' => makedirs_walk rest (pos ++ [c]) root'
                   | Raise e => (Raise e, root)
                   end
               end
      | _ => (Raise NotADirectoryError, root)
      end
  end.

Definition makedirs (path : string) (root : node) : outcome unit * node :=
  if path =? "" then (Raise (FileNotFoundError "No such file or directory"), root)
  else makedirs_walk (Str.split posixpath.sep path) [] root.

(** [json.dump] accepts the value. *)
Fixpoint serialisable (v : value) : bool :=
  match v with
  | VObject _ => false
  | VList items => forallb serialisable items
  | VDict d =>
      (fix all (d : dict) : bool :=
         match d with
         | [] => true
         | (_, v) :: rest => serialisable v && all rest
         end) d
  | _ => true
  end.

(** [os.path.exists(path)]. *)
Definition os_path_exists (path : string) : M bool :=
  sys (Sys_stat path) ;;
  fun w => (Return (if path =? "" then false
                    else match lookup path w with Some _ => true | None => false end),
            w).

(** [os.makedirs(path, exist_ok=True)]. *)
Definition os_makedirs (path : string) : M unit :=
  sys (Sys_makedirs path) ;;
  fun w => match makedirs path (fs w) with
           | (o, t) => (o, set_fs w t)
           end.

(** [os.mkdir(path)], for a path that does not end with a slash, as
    are the paths [mkdtemp] makes of its random names. *)
Definition os_mkdir (path : string) : M unit :=
  sys (Sys_mkdir path) ;;
  fun w => match create false path (Dir []) (fs w) with
           | Return t => (Return tt, set_fs w t)
           | Raise e => (Raise e, w)
           end.

(** [with open(path, "r", encoding="utf-8") as f: return json.load(f)]. *)
Definition _sync_read_prefs (path : string) : M value :=
  sys (Sys_open_r path) ;;
  fun w => match lookup path w with
           | None => (Raise (FileNotFoundError "No such file or directory"), w)
           | Some (Dir _) => (Raise IsADirectoryError, w)
           | Some (JsonFile doc) => (Return doc, w)
           | Some (ZipFile _) => (Raise UnicodeDecodeError, w)
           | Some _ => (Raise JSONDecodeError, w)
           end.

(** [with open(path, "w+", encoding="utf-8") as f:
       json.dump(prefs, f, ensure_ascii=False, indent=2)]: the file is
    truncated when it is opened, and keeps what was written of it when
    [json.dump] raises. *)
Definition _sync_write_prefs (prefs : dict) (path : string) : M unit :=
  sys (Sys_open_w path) ;;
  fun w =>
    if serialisable (VDict prefs) then
      match create true path (JsonFile (VDict prefs)) (fs w) with
      | Return t => (Return tt, set_fs w t)
      | Raise e => (Raise e, w)
      end
    else
      match create true path (PartialJson (VDict prefs)) (fs w) with
      | Return t =>
          (Raise (TypeError "Object is not JSON serializable"), set_fs w t)
      | Raise e => (Raise e, w)
      end.

(* ================================================================= *)
(** ** pathlib and tempfile *)

(** A [pathlib.PurePosixPath]: the anchor (empty, one slash or two) and
    the parts below it.  Empty and [.] components are dropped when the path
    is built, [..] is kept. *)
Record Path : Type := mkPath { anchor : string; parts : list string }.

Definition Path_of (s : string) : Path :=
  mkPath (if Str.startswith "//" s && negb (Str.startswith "///" s) then "//"
          else if Str.startswith "/" s then "/" else "")
         (filter (fun c => negb (c =? "") && negb (c =? "."))
                 (Str.split posixpath.sep s)).

(** [str(path)]. *)
Definition Path_str (p : Path) : string :=
  match anchor p, parts p with
  | EmptyString, [] => "."
  | a, ps => (a ++ Str.join "/" ps)%string
  end.

(** [path.parent]. *)
Definition Path_parent (p : Path) : Path :=
  mkPath (anchor p) (removelast (parts p)).

(** [path / name]. *)
Definition Path_child (p : Path) (name : string) : Path :=
  mkPath (anchor p) (parts p ++ [name]).

Definition Path_stat (p : Path) : M (option node) :=
  sys (Sys_stat (Path_str p)) ;;
  fun w => (Return (lookup (Path_str p) w), w).

(** [path.exists()], [path.is_file()], [path.is_dir()]. *)
Definition Path_exists (p : Path) : M bool :=
  n <- Path_stat p ;;
  ret (match n with Some _ => true | None => false end).

Definition Path_is_file (p : Path) : M bool :=
  n <- Path_stat p ;;
  ret (match n with Some (Dir _) | None => false | Some _ => true end).

Definition Path_is_dir (p : Path) : M bool :=
  n <- Path_stat p ;;
  ret (match n with Some (Dir _) => true | _ => false end).

(** The entries of the tree [n], rooted at [here], whose name matches the
    pattern [manifest.*]: those of a directory in the order of its listing,
    then those of its subdirectories, depth first. *)
Fixpoint rglob_tree (n : node) (here : Path) {struct n} : list Path :=
  match n with
  | Dir entries =>
      map (fun e => Path_child here (fst e))
          (filter (fun e => Str.startswith "manifest." (fst e)) entries)
      ++ (fix below (es : list (string * node)) : list Path :=
            match es with
            | [] => []
            | (name, child) :: rest =>
                rglob_tree child (Path_child here name) ++ below rest
            end) entries
  | _ => []
  end.

(** [list(path.rglob("manifest.*"))]. *)
Definition Path_rglob_manifest (p : Path) : M (list Path) :=
  sys (Sys_scandir (Path_str p)) ;;
  fun w => (Return (match lookup (Path_str p) w with
                    | Some n => rglob_tree n p
                    | None => []
                    end), w).

Definition TMP_MAX : nat := 10000.

(** The loop of [tempfile.mkdtemp]: draw a name, try to create the
    directory, go on to the next name when it exists already. *)
Fixpoint mkdtemp_loop (tries : nat) (dir prefix suffix : string) : M string :=
  match tries with
  | O => raise FileExistsError
  | S tries' =>
      name <- draw ;;
      let file := posixpath.join dir [(prefix ++ name ++ suffix)%string] in
      try_except
        (os_mkdir file ;; ret (posixpath.normpath file))
        (fun e => match e with
                  | FileExistsError => mkdtemp_loop tries' dir prefix suffix
                  | _ => raise e
                  end)
  end.

(** [tempfile.mkdtemp(prefix=prefix, suffix=suffix)]; the path it returns
    is absolute, as [gettempdir()] is. *)
Definition mkdtemp (prefix suffix : string) : M string :=
  fun w => mkdtemp_loop TMP_MAX (gettempdir w) prefix suffix w.

(** [secrets.token_hex(4)]. *)
Definition token_hex : M string := draw.

(** The tree after the members of an archive are written into the
    directory that the names [comps] lead to.  A member replaces an entry
    of its name. *)
Fixpoint extract_into (comps : list string) (members : list (string * node))
         (n : node) : outcome node :=
  match n with
  | Dir entries =>
      match comps with
      | [] => Return (Dir (dict_update entries members))
      | c :: rest =>
          match dict_get c entries with
          | Some child =>
              match extract_into rest members child with
              | Return child' => Return (Dir (dict_set c child' entries))
              | Raise e => Raise e
              end
          | None => Raise (FileNotFoundError "No such file or directory")
          end
      end
  | _ => Raise NotADirectoryError
  end.

(** [with zipfile.ZipFile(path, "r") as z: z.extractall(target)]; the
    target directory is made for the first member when it is missing. *)
Definition zip_extractall (p : Path) (target : string) : M unit :=
  sys (Sys_open_r (Path_str p)) ;;
  fun w => match lookup (Path_str p) w with
           | Some (ZipFile []) => (Return tt, add_trace w (Sys_extract target))
           | Some (ZipFile members) =>
               match makedirs target (fs w) with
               | (Return _, t1) =>
                   match locate t1 target with
                   | Return pos =>
                       match extract_into pos members t1 with
                       | Return t =>
                           (Return tt,
                            add_trace (set_fs w t) (Sys_extract target))
                       | Raise e => (Raise e, set_fs w t1)
                       end
                   | Raise e => (Raise e, set_fs w t1)
                   end
               | (Raise e, t1) => (Raise e, set_fs w t1)
               end
           | Some (Dir _) => (Raise IsADirectoryError, w)
           | Some _ => (Raise BadZipFile, w)
           | None => (Raise (FileNotFoundError "No such file or directory"), w)
           end.

(* ================================================================= *)
(** ** The host and find_chrome_executable *)

(** What the module reads of the platform it runs on: [sys.platform],
    [os.environ.get], [os.sep], [os.pathsep], [os.path.normpath], the
    probes [os.path.exists] and [os.access(.., os.X_OK)] of the locator,
    [os.getuid] (absent on a platform without it) and
    [ctypes.windll.shell32.IsUserAnAdmin]. *)
Record Host : Type := mkHost {
  sys_platform : string;
  environ_get : string -> option string;
  os_sep : string;
  os_pathsep : ascii;
  os_path_normpath : string -> string;
  path_exists : string -> bool;
  access_X_OK : string -> bool;
  os_getuid : option Z;
  IsUserAnAdmin : Z
}.

(** [is_posix = sys.platform.startswith(("darwin", "cygwin", "linux", "linux2"))]. *)
Definition is_posix (h : Host) : bool :=
  existsb (fun p => Str.startswith p (sys_platform h))
          ["darwin"; "cygwin"; "linux"; "linux2"].

(** [is_root()]. *)
Definition is_root (h : Host) : bool :=
  match os_getuid h with
  | Some uid => (uid =? 0)%Z
  | None => negb (IsUserAnAdmin h =? 0)%Z
  end.

(** What [find_chrome_executable] returns: the list when [return_all], one
    path otherwise. *)
Inductive found : Type :=
| All (rv : list string)
| One (path : string).

Definition posix_names : list string :=
  ["google-chrome"; "chromium"; "chromium-browser"; "chrome";
   "google-chrome-stable"].

Definition darwin_paths : list string :=
  ["/Applications/Google Chrome.app/Contents/MacOS/Google Chrome";
   "/Applications/Chromium.app/Contents/MacOS/Chromium"].

Definition windows_roots : list string :=
  ["PROGRAMFILES"; "PROGRAMFILES(X86)"; "LOCALAPPDATA"; "PROGRAMW6432"].

Definition windows_subpaths : list string :=
  ["Google/Chrome/Application"; "Google/Chrome Beta/Application";
   "Google/Chrome Canary/Application"].

(** The candidate list; [os.environ.get("PATH")] is [None] when the
    variable is unset, and [None.split] raises. *)
Definition candidates (h : Host) : outcome (list string) :=
  if is_posix h then
    match environ_get h "PATH" with
    | None =>
        Raise (AttributeError "'NoneType' object has no attribute 'split'")
    | Some path =>
        Return
          (flat_map (fun item =>
                       map (fun subitem => Str.join (os_sep h) [item; subitem])
                           posix_names)
                    (Str.split (os_pathsep h) path)
           ++ (if Str.contains "darwin" (sys_platform h) then darwin_paths
               else []))
    end
  else
    Return
      (flat_map (fun item =>
                   match item with
                   | Some item =>
                       map (fun subitem =>
                              Str.join (os_sep h) [item; subitem; "chrome.exe"])
                           windows_subpaths
                   | None => []
                   end)
                (map (environ_get h) windows_roots)).

(** [min(best :: l, key=len)]: the first of the shortest. *)
Fixpoint min_by_len (best : string) (l : list string) : string :=
  match l with
  | [] => best
  | x :: rest =>
      min_by_len (if (Str.len x <? Str.len best)%nat then x else best) rest
  end.

Definition not_found_message : string :=
  "could not find a valid chrome browser binary. please make sure chrome is installed."
  ++ "or use the keyword argument 'browser_executable_path=/path/to/your/browser' ".

(** The candidates that exist and are executable. *)
Definition valid_candidates (h : Host) (cands : list string) : list string :=
  filter (fun candidate => path_exists h candidate && access_X_OK h candidate)
         cands.

(** The winner among the valid candidates, [None] when there is none. *)
Definition pick_winner (rv : list string) : option string :=
  match rv with
  | [] => None
  | [only] => Some only
  | first :: rest => Some (min_by_len first rest)
  end.

Definition find_chrome_executable (h : Host) (return_all : bool)
  : outcome found :=
  match candidates h with
  | Raise e => Raise e
  | Return cands =>
      let rv := valid_candidates h cands in
      if return_all && negb (posixpath.is_nil rv) then Return (All rv)
      else
        match pick_winner rv with
        | Some winner =>
            if winner =? "" then Raise (FileNotFoundError not_found_message)
            else Return (One (os_path_normpath h winner))
        | None => Raise (FileNotFoundError not_found_message)
        end
  end.

(* ================================================================= *)
(** ** Config *)

(** An entry of [_extensions]: [add_extension] appends a [str] for an
    archive and a [pathlib.Path] for a directory. *)
Inductive pathlike : Type :=
| PStr (s : string)
| PPath (p : Path).

Record Config : Type := mkConfig {
  _user_data_dir : string;
  _custom_data_dir : bool;
  _browser_args : list string;
  browser_executable_path : string;
  headless : bool;
  sandbox : bool;
  host : option string;
  port : option Z;
  expert : bool;
  _extensions : list pathlike;
  autodiscover_targets : bool;
  lang : string;
  prefs : dict;
  _prefs_applied : bool;
  kwargs_attrs : dict;
  _default_browser_args : list string
}.

(** The names that are taken when [__init__] merges its keyword arguments
    into the instance: its parameters, which Python binds and never passes
    on as keywords, the attributes it assigns, and the methods that an
    attribute of the instance would hide. *)
Definition TAKEN : list string :=
  ["user_data_dir"; "headless"; "browser_executable_path"; "browser_args";
   "sandbox"; "lang"; "prefs"; "host"; "port"; "expert";
   "_user_data_dir"; "_custom_data_dir"; "_browser_args"; "_extensions";
   "autodiscover_targets"; "_prefs_applied"; "_default_browser_args";
   "add_extension"; "apply_prefs"; "add_argument"].

(** A keyword argument that [__init__] collects in [**kwargs].  One that
    names an attribute which the constructor assigns and which is no
    parameter comes with a value of the type the attribute has in the
    model; one of any other name comes with a Python value, and its name is
    not taken. *)
Inductive keyword : Type :=
| Kw_user_data_dir (path : string)               (* _user_data_dir=path *)
| Kw_custom_data_dir (custom : bool)             (* _custom_data_dir=custom *)
| Kw_browser_args (args : list string)           (* _browser_args=args *)
| Kw_extensions (paths : list pathlike)          (* _extensions=paths *)
| Kw_autodiscover_targets (on : bool)            (* autodiscover_targets=on *)
| Kw_prefs_applied (applied : bool)              (* _prefs_applied=applied *)
| Kw_default_browser_args (args : list string)   (* _default_browser_args=args *)
| Kw_other (name : string) (v : value) (free : Str.mem name TAKEN = false).

(** The arguments of [Config.__init__]; [None] is [AUTO].  [kwargs] holds
    the keyword arguments beyond the parameters, in the order they were
    given. *)
Module Init.
Record args : Type := mk {
  user_data_dir : option string;
  headless : bool;
  browser_executable_path : option string;
  browser_args : option (list string);
  sandbox : bool;
  lang : string;
  prefs : option dict;
  host : option string;
  port : option Z;
  expert : bool;
  kwargs : list keyword
}.

(** [Config()]. *)
Definition default : args :=
  mk None false None None true "en-US" None None None false [].
End Init.

Definition DEFAULT_BROWSER_ARGS : list string :=
  ["--remote-allow-origins=*";
   "--no-first-run";
   "--no-service-autorun";
   "--no-default-browser-check";
   "--homepage=about:blank";
   "--no-pings";
   "--password-store=basic";
   "--disable-infobars";
   "--disable-breakpad";
   "--disable-component-update";
   "--disable-backgrounding-occluded-windows";
   "--disable-renderer-backgrounding";
   "--disable-background-networking";
   "--disable-dev-shm-usage";
   "--disable-features=IsolateOrigins,site-per-process";
   "--disable-session-crashed-bubble";
   "--disable-search-engine-choice-screen"].

(** Truth value of an optional [str] and of an optional [int]. *)
Definition truthy_str (s : option string) : bool :=
  match s with Some s => negb (s =? "") | None => false end.

Definition truthy_int (n : option Z) : bool :=
  match n with Some n => negb (n =? 0)%Z | None => false end.

(** [temp_profile_dir()]. *)
Definition temp_profile_dir (h : Host) : M string :=
  path <- mkdtemp "uc_" "" ;;
  ret (os_path_normpath h path).

(** The value a keyword gives to an attribute, if it names that
    attribute. *)
Definition kw_user_data_dir (k : keyword) : option string :=
  match k with Kw_user_data_dir path => Some path | _ => None end.

Definition kw_custom_data_dir (k : keyword) : option bool :=
  match k with Kw_custom_data_dir custom => Some custom | _ => None end.

Definition kw_browser_args (k : keyword) : option (list string) :=
  match k with Kw_browser_args args => Some args | _ => None end.

Definition kw_extensions (k : keyword) : option (list pathlike) :=
  match k with Kw_extensions paths => Some paths | _ => None end.

Definition kw_autodiscover_targets (k : keyword) : option bool :=
  match k with Kw_autodiscover_targets on => Some on | _ => None end.

Definition kw_prefs_applied (k : keyword) : option bool :=
  match k with Kw_prefs_applied applied => Some applied | _ => None end.

(** What an attribute holds after [self.__dict__.update(kwargs)] (line 165),
    when [assigned] is what [__init__] had assigned to it and [pick] tells
    which keywords name it: the value of the keyword of its name, the last
    one should there be several, and [assigned] when there is none. *)
Definition updated {A} (pick : keyword -> option A) (kwargs : list keyword)
           (assigned : A) : A :=
  fold_left (fun held k => match pick k with Some x => x | None => held end)
            kwargs assigned.

(** The attributes that the keywords of other names become. *)
Definition other_attrs (kwargs : list keyword) : dict :=
  fold_left (fun d k => match k with
                        | Kw_other name v _ => dict_set name v d
                        | _ => d
                        end)
            kwargs [].

(** [Config.__init__].  The keywords are merged into the instance after
    the attributes of lines 136 to 162 are assigned and before
    [_default_browser_args] is: they overwrite [_user_data_dir],
    [_custom_data_dir], [_browser_args], [_extensions],
    [autodiscover_targets] and [_prefs_applied], the attributes that are no
    parameters; a keyword [_default_browser_args] is overwritten in its
    turn by the baseline list.  The keywords of other names become
    attributes of their own. *)
Definition Config_init (h : Host) (a : Init.args) : M Config :=
  let browser_args :=
    match Init.browser_args a with Some l => l | None => [] end in
  let kwargs := Init.kwargs a in
  dir <- (if truthy_str (Init.user_data_dir a)
          then ret (match Init.user_data_dir a with Some p => p | None => "" end,
                    true)
          else (d <- temp_profile_dir h ;; ret (d, false))) ;;
  exe <- (if truthy_str (Init.browser_executable_path a)
          then ret (match Init.browser_executable_path a with
                    | Some p => p | None => "" end)
          else match find_chrome_executable h false with
               | Return (One p) => ret p
               | Return (All rv) => ret (hd "" rv)
               | Raise e => raise e
               end) ;;
  sandbox' <- (if is_posix h && is_root h && Init.sandbox a
               then (logger_info "detected root usage, autoo disabling sandbox mode" ;;
                     ret false)
               else ret (Init.sandbox a)) ;;
  ret {| _user_data_dir := updated kw_user_data_dir kwargs (fst dir);
         _custom_data_dir := updated kw_custom_data_dir kwargs (snd dir);
         _browser_args := updated kw_browser_args kwargs browser_args;
         browser_executable_path := exe;
         headless := Init.headless a;
         sandbox := sandbox';
         host := Init.host a;
         port := Init.port a;
         expert := Init.expert a;
         _extensions := updated kw_extensions kwargs [];
         autodiscover_targets := updated kw_autodiscover_targets kwargs true;
         lang := Init.lang a;
         prefs := match Init.prefs a with Some d => d | None => [] end;
         _prefs_applied := updated kw_prefs_applied kwargs false;
         kwargs_attrs := other_attrs kwargs;
         _default_browser_args := DEFAULT_BROWSER_ARGS |}.

(** The property [user_data_dir] and its setter. *)
Definition user_data_dir (self : Config) : string := _user_data_dir self.

Definition set_user_data_dir (self : Config) (path : string) : Config :=
  mkConfig path true (_browser_args self) (browser_executable_path self)
           (headless self) (sandbox self) (host self) (port self) (expert self)
           (_extensions self) (autodiscover_targets self) (lang self)
           (prefs self) (_prefs_applied self) (kwargs_attrs self)
           (_default_browser_args self).

(** [config.prefs = d]. *)
Definition set_prefs (self : Config) (d : dict) : Config :=
  mkConfig (_user_data_dir self) (_custom_data_dir self) (_browser_args self)
           (browser_executable_path self) (headless self) (sandbox self)
           (host self) (port self) (expert self) (_extensions self)
           (autodiscover_targets self) (lang self) d (_prefs_applied self)
           (kwargs_attrs self) (_default_browser_args self).

Definition with_prefs_applied (self : Config) : Config :=
  mkConfig (_user_data_dir self) (_custom_data_dir self) (_browser_args self)
           (browser_executable_path self) (headless self) (sandbox self)
           (host self) (port self) (expert self) (_extensions self)
           (autodiscover_targets self) (lang self) (prefs self) true
           (kwargs_attrs self) (_default_browser_args self).

Definition append_extension (self : Config) (e : pathlike) : Config :=
  mkConfig (_user_data_dir self) (_custom_data_dir self) (_browser_args self)
           (browser_executable_path self) (headless self) (sandbox self)
           (host self) (port self) (expert self) (_extensions self ++ [e])
           (autodiscover_targets self) (lang self) (prefs self)
           (_prefs_applied self) (kwargs_attrs self)
           (_default_browser_args self).

Definition append_browser_arg (self : Config) (arg : string) : Config :=
  mkConfig (_user_data_dir self) (_custom_data_dir self)
           (_browser_args self ++ [arg])
           (browser_executable_path self) (headless self) (sandbox self)
           (host self) (port self) (expert self) (_extensions self)
           (autodiscover_targets self) (lang self) (prefs self)
           (_prefs_applied self) (kwargs_attrs self)
           (_default_browser_args self).

(** [Config.add_extension]. *)
Definition add_extension (self : Config) (extension_path : string) : M Config :=
  let path := Path_of extension_path in
  present <- Path_exists path ;;
  if negb present
  then raise (FileNotFoundError
                ("could not find anything here: " ++ Path_str path))
  else
    file <- Path_is_file path ;;
    if file then
      suffix <- token_hex ;;
      tf <- mkdtemp "extension_" suffix ;;
      zip_extractall path tf ;;
      ret (append_extension self (PStr tf))
    else
      directory <- Path_is_dir path ;;
      if directory then
        items <- Path_rglob_manifest path ;;
        ret (append_extension self
               (PPath (fold_left (fun _ item => Path_parent item) items path)))
      else ret self.

(** [existing_prefs.update(self.prefs)]: only a [dict] has the method. *)
Definition py_update (existing_prefs : value) (new : dict) : M dict :=
  match existing_prefs with
  | VDict d => ret (dict_update d new)
  | _ => raise (AttributeError "object has no attribute 'update'")
  end.

(** [Config.apply_prefs]. *)
Definition apply_prefs (self : Config) : M Config :=
  if posixpath.is_nil (prefs self) || _prefs_applied self then ret self
  else
    let prefs_path :=
      posixpath.join (user_data_dir self) ["Default"; "Preferences"] in
    let prefs_dir := posixpath.dirname prefs_path in
    os_makedirs prefs_dir ;;
    try_except
      (present <- os_path_exists prefs_path ;;
       existing_prefs <- (if present then _sync_read_prefs prefs_path
                          else ret (VDict [])) ;;
       existing_prefs <- py_update existing_prefs (prefs self) ;;
       let data := prefs_to_json existing_prefs in
       _sync_write_prefs data prefs_path ;;
       logger_info ("Applied preferences to " ++ prefs_path) ;;
       ret (with_prefs_applied self))
      (fun e =>
         logger_warning "Failed to apply preferences: " e ;;
         ret self).

(** The assembly of the argument list in [Config.__call__], after the
    preferences are applied. *)
Definition assemble (self : Config) : list string :=
  let args := _default_browser_args self in
  let args := args ++ [("--user-data-dir=" ++ user_data_dir self)%string] in
  let args := args ++ ["--disable-features=IsolateOrigins,site-per-process"] in
  let args := args ++ ["--disable-session-crashed-bubble"] in
  let args :=
    if expert self
    then args ++ ["--disable-web-security"; "--disable-site-isolation-trials"]
    else args in
  let args :=
    if negb (posixpath.is_nil (_browser_args self))
    then args ++ filter (fun arg => negb (Str.mem arg args)) (_browser_args self)
    else args in
  let args := if headless self then args ++ ["--headless=new"] else args in
  let args := if negb (sandbox self) then args ++ ["--no-sandbox"] else args in
  let args :=
    if truthy_str (host self)
    then args ++ [("--remote-debugging-host="
                   ++ match host self with Some h => h | None => "" end)%string]
    else args in
  let args :=
    if truthy_int (port self)
    then args ++ [("--remote-debugging-port="
                   ++ Str.of_Z (match port self with Some p => p | None => 0%Z end))%string]
    else args in
  args.

(** [Config.__call__]: the argument list and the instance after the
    call. *)
Definition Config_call (self : Config) : M (list string * Config) :=
  self' <- apply_prefs self ;;
  ret (assemble self', self').

Definition RESERVED : list string :=
  ["headless"; "data-dir"; "data_dir"; "no-sandbox"; "no_sandbox"; "lang"].

(** [any(x in arg.lower() for x in [...])]. *)
Definition reserved (arg : string) : bool :=
  existsb (fun x => Str.contains x (Str.lower arg)) RESERVED.

Definition quote : string := String (ascii_of_nat 34) EmptyString.

(** [Config.add_argument]. *)
Definition add_argument (self : Config) (arg : string) : outcome Config :=
  if reserved arg
  then Raise (ValueError
                (quote ++ arg ++ quote
                 ++ " not allowed. please use one of the attributes of the Config object to set it"))
  else Return (append_browser_arg self arg).

(* ================================================================= *)
(** ** The rest of the module *)

(** [write_prefs] and [read_prefs] as their caller sees them once awaited:
    the coroutine hands the synchronous helper to the executor of the running
    loop and waits for it, so it returns what the helper returns and raises
    what the helper raises. *)
Definition write_prefs (prefs : dict) (prefs_path : string) : M unit :=
  let data := prefs_to_json prefs in
  _sync_write_prefs data prefs_path.

Definition read_prefs (prefs_path : string) : M value :=
  prefs <- _sync_read_prefs prefs_path ;;
  ret prefs.

(** The property [uses_custom_data_dir]. *)
Definition uses_custom_data_dir (self : Config) : bool := _custom_data_dir self.

(** [sorted(l)] for a list of strings, which Python orders by code point:
    insertion into a sorted list, from the right. *)
Fixpoint insert_sorted (x : string) (l : list string) : list string :=
  match l with
  | [] => [x]
  | y :: rest => if String.leb x y then x :: l else y :: insert_sorted x rest
  end.

Definition sorted (l : list string) : list string :=
  fold_right insert_sorted [] l.

(** The property [browser_args]. *)
Definition browser_args (self : Config) : list string :=
  sorted (_default_browser_args self ++ _browser_args self).

(* ================================================================= *)
(** ** Vocabulary of the properties *)

(** The segments of a dotted key. *)
Definition segments (key : string) : list string := Str.split dot key.

(** The value found in [v] along a path of keys. *)
Fixpoint get_path (path : list string) (v : value) : option value :=
  match path with
  | [] => Some v
  | k :: rest =>
      match v with
      | VDict d =>
          match dict_get k d with
          | Some child => get_path rest child
          | None => None
          end
      | _ => None
      end
  end.

(** The one-branch tree that holds [v] at the end of a path. *)
Fixpoint nest (path : list string) (v : value) : value :=
  match path with
  | [] => v
  | k :: rest => VDict [(k, nest rest v)]
  end.

(** What is stored at a key when [new] is merged over [old]. *)
Definition merged (old : option value) (new : value) : value :=
  match old, new with
  | Some (VDict a), VDict b => VDict (deep_merge a b)
  | _, _ => new
  end.

(** The leaves of a tree with their paths, in the order of the tree; a
    mapping is never a leaf. *)
Definition push (k : string) (leaf : list string * value)
  : list string * value := (k :: fst leaf, snd leaf).

Fixpoint leaves (v : value) : list (list string * value) :=
  match v with
  | VDict d =>
      (fix below (d : dict) : list (list string * value) :=
         match d with
         | [] => []
         | (k, child) :: rest => map (push k) (leaves child) ++ below rest
         end) d
  | _ => [([], v)]
  end.

(** Modelled from the spec: the flatten operation of the testable
    properties, which is not in the source; it rejoins the keys along the
    path to each leaf with dots. *)
Definition flatten (tree : dict) : dict :=
  map (fun leaf => (Str.join "." (fst leaf), snd leaf)) (leaves (VDict tree)).

(** [a] is an initial part of [b]. *)
Fixpoint is_prefix (a b : list string) : bool :=
  match a, b with
  | [], _ => true
  | x :: a', y :: b' => (x =? y) && is_prefix a' b'
  | _ :: _, [] => false
  end.

(** Two dotted keys collide when they are equal or one is a dotted prefix
    of the other. *)
Definition collide (k1 k2 : string) : bool :=
  is_prefix (segments k1) (segments k2) || is_prefix (segments k2) (segments k1).

(** No two entries of a flat mapping collide. *)
Fixpoint collision_free (m : dict) : bool :=
  match m with
  | [] => true
  | (k, _) :: rest =>
      forallb (fun kv => negb (collide k (fst kv))) rest && collision_free rest
  end.

(** No value of a flat mapping is a mapping. *)
Definition scalar_values (m : dict) : bool :=
  forallb (fun kv => negb (is_dict (snd kv))) m.

(** [x] occurs [count x l] times in [l]. *)
Definition count (x : string) (l : list string) : nat :=
  length (filter (String.eqb x) l).

(** [l] has no two equal entries. *)
Fixpoint distinct (l : list string) : bool :=
  match l with
  | [] => true
  | x :: rest => negb (Str.mem x rest) && distinct rest
  end.

(** The calls a caller makes on a [Config] after it is built. *)
Inductive call : Type :=
| Call_add_argument (arg : string)
| Call_add_extension (extension_path : string)
| Call_apply_prefs
| Call_render
| Call_set_user_data_dir (path : string)
| Call_set_prefs (d : dict).

(** The instance and the world after a call; a call that raises leaves the
    instance as it was. *)
Definition after {A} (self : Config) (r : outcome A * World) (new : A -> Config)
  : Config * World :=
  match r with
  | (Return a, w) => (new a, w)
  | (Raise _, w) => (self, w)
  end.

Definition run (c : call) (self : Config) (w : World) : Config * World :=
  match c with
  | Call_add_argument arg =>
      (match add_argument self arg with Return c' => c' | Raise _ => self end, w)
  | Call_add_extension p => after self (add_extension self p w) (fun c' => c')
  | Call_apply_prefs => after self (apply_prefs self w) (fun c' => c')
  | Call_render => after self (Config_call self w) snd
  | Call_set_user_data_dir p => (set_user_data_dir self p, w)
  | Call_set_prefs d => (set_prefs self d, w)
  end.

(** [later c c']: the instance [c] becomes [c'] by a sequence of calls, each
    made in whatever world it finds. *)
Inductive later (c : Config) : Config -> Prop :=
| later_now : later c c
| later_call c' k w : later c c' -> later c (fst (run k c' w)).

(** The three stretches of the list [Config.__call__] assembles. *)
Definition base (self : Config) : list string :=
  _default_browser_args self
  ++ [("--user-data-dir=" ++ user_data_dir self)%string;
      "--disable-features=IsolateOrigins,site-per-process";
      "--disable-session-crashed-bubble"]
  ++ (if expert self
      then ["--disable-web-security"; "--disable-site-isolation-trials"]
      else []).

Definition kept_extras (self : Config) : list string :=
  filter (fun arg => negb (Str.mem arg (base self))) (_browser_args self).

Definition switches (self : Config) : list string :=
  (if headless self then ["--headless=new"] else [])
  ++ (if negb (sandbox self) then ["--no-sandbox"] else [])
  ++ (if truthy_str (host self)
      then [("--remote-debugging-host="
             ++ match host self with Some h => h | None => "" end)%string]
      else [])
  ++ (if truthy_int (port self)
      then [("--remote-debugging-port="
             ++ Str.of_Z (match port self with Some p => p | None => 0%Z end))%string]
      else []).

(** A host and a world to run the examples in: a Linux machine with one
    browser on its search path, a process that runs as root, an empty
    temporary directory. *)
Definition demo_host : Host :=
  mkHost "linux"
         (fun name => if name =? "PATH" then Some "/usr/local/bin:/usr/bin:/bin"
                      else None)
         "/" ":"%char posixpath.normpath
         (fun p => p =? "/usr/bin/google-chrome") (fun _ => true)
         (Some 0%Z) 0%Z.

Definition demo_world : World :=
  mkWorld (Dir [("tmp", Dir []); ("usr", Dir [("bin", Dir [("google-chrome", OtherFile "ELF")])])])
          Str.of_nat 0 "/tmp" [] [].

(** A Config as [Config_init] leaves it on that host, with three extra
    arguments and a debugging port. *)
Definition demo_config : Config :=
  mkConfig "/tmp/uc_0" false ["--x"; "--no-first-run"; "--x"]
           "/usr/bin/google-chrome" false false None (Some 9222%Z) false []
           true "en-US" [] false [] DEFAULT_BROWSER_ARGS.

(** What [Config()] builds on that host in that world, and the world it
    leaves. *)
Definition root_config : Config :=
  mkConfig "/tmp/uc_0" false [] "/usr/bin/google-chrome" false false None None
           false [] true "en-US" [] false [] DEFAULT_BROWSER_ARGS.

Definition root_world : World :=
  mkWorld (Dir [("tmp", Dir [("uc_0", Dir [])]);
                ("usr", Dir [("bin", Dir [("google-chrome", OtherFile "ELF")])])])
          Str.of_nat 1 "/tmp"
          [LogInfo "detected root usage, autoo disabling sandbox mode"]
          [Sys_mkdir "/tmp/uc_0"].

(** [w] is the first of the shortest strings of [l]. *)
Definition first_min (w : string) (l : list string) : Prop :=
  exists l1 l2, l = l1 ++ w :: l2
                /\ (forall x, In x l1 -> Str.len w < Str.len x)
                /\ (forall x, In x l2 -> Str.len w <= Str.len x).

(** A Linux host with three browsers on its search path, of path lengths
    20, 15 and 25 in the order of discovery. *)
Definition three_browsers : Host :=
  mkHost "linux"
         (fun name => if name =? "PATH" then Some "/opt/xy/bin:/usr/bin:/opt/google"
                      else None)
         "/" ":"%char posixpath.normpath
         (fun p => Str.mem p ["/opt/xy/bin/chromium"; "/usr/bin/chrome";
                              "/opt/google/google-chrome"])
         (fun _ => true) (Some 1000%Z) 0%Z.

(** A Linux host whose search path has an entry that ends with a slash. *)
Definition trailing_slash : Host :=
  mkHost "linux"
         (fun name => if name =? "PATH" then Some "/opt/chrome/:/usr/local/bin"
                      else None)
         "/" ":"%char posixpath.normpath
         (fun p => Str.mem p ["/opt/chrome//chrome"; "/usr/local/bin/google-chrome"])
         (fun _ => true) (Some 1000%Z) 0%Z.

(** A world with an unpacked extension that has a manifest at its top and
    another one further down. *)
Definition extension_world : World :=
  mkWorld (Dir [("tmp", Dir []);
                ("ext", Dir [("manifest.json", JsonFile (VDict []));
                             ("background.js", OtherFile "");
                             ("vendor", Dir [("manifest.json", JsonFile (VDict []))])])])
          Str.of_nat 0 "/tmp" [] [].

(** The last of a list, [default] for the empty list. *)
Definition last_or {A} (l : list A) (default : A) : A :=
  match rev l with
  | x :: _ => x
  | [] => default
  end.

(** What a call returned or raised, and the tree it left. *)
Definition seen {A} (r : outcome A * World) : outcome A * node :=
  (fst r, fs (snd r)).

(** What [json.load] makes of the node at the path of the file. *)
Definition read_node (n : option node) : outcome value :=
  match n with
  | None => Raise (FileNotFoundError "No such file or directory")
  | Some (Dir _) => Raise IsADirectoryError
  | Some (JsonFile doc) => Return doc
  | Some (ZipFile _) => Raise UnicodeDecodeError
  | Some _ => Raise JSONDecodeError
  end.

(** What [json.dump] leaves in the file. *)
Definition dumped (data : dict) : node :=
  if serialisable (VDict data) then JsonFile (VDict data)
  else PartialJson (VDict data).

(** The [try] block of [apply_prefs] seen from the tree alone: what it
    returns or raises, and the tree it leaves. *)
Definition try_block_fs (self : Config) (prefs_path : string) (t : node)
  : outcome Config * node :=
  let at_path := node_at t prefs_path in
  let present :=
    if prefs_path =? "" then false
    else match at_path with Some _ => true | None => false end in
  match (if present then read_node at_path else Return (VDict [])) with
  | Raise e => (Raise e, t)
  | Return (VDict existing) =>
      let data := prefs_to_json (dict_update existing (prefs self)) in
      match create true prefs_path (dumped data) t with
      | Return t' =>
          (if serialisable (VDict data) then Return (with_prefs_applied self)
           else Raise (TypeError "Object is not JSON serializable"), t')
      | Raise e => (Raise e, t)
      end
  | Return _ => (Raise (AttributeError "object has no attribute 'update'"), t)
  end.

(** [apply_prefs] seen from the tree alone. *)
Definition apply_prefs_fs (self : Config) (t : node) : outcome Config * node :=
  if posixpath.is_nil (prefs self) || _prefs_applied self then (Return self, t)
  else
    let prefs_path :=
      posixpath.join (user_data_dir self) ["Default"; "Preferences"] in
    match makedirs (posixpath.dirname prefs_path) t with
    | (Raise e, t1) => (Raise e, t1)
    | (Return _, t1) =>
        match try_block_fs self prefs_path t1 with
        | (Return c, t2) => (Return c, t2)
        | (Raise _, t2) => (Return self, t2)
        end
    end.

(** The preferences of the demo script's first entry, a Config that holds
    them for the profile [/tmp/uc_0], and three worlds for it: one where the
    profile is fresh ([root_world]), one where [Default] is a regular file,
    and one where the preference file is not a JSON document. *)
Definition images_prefs : dict :=
  [("profile.default_content_setting_values.images", VInt 2)].

Definition images_config : Config := set_prefs root_config images_prefs.

Definition blocked_world : World :=
  mkWorld (Dir [("tmp", Dir [("uc_0", Dir [("Default", OtherFile "")])])])
          Str.of_nat 1 "/tmp" [] [].

Definition garbled_world : World :=
  mkWorld (Dir [("tmp", Dir [("uc_0", Dir [("Default",
                   Dir [("Preferences", OtherFile "{not json")])])])])
          Str.of_nat 1 "/tmp" [] [].

(** The leaves below the entries of a mapping. *)
Definition leaves_dict (d : dict) : list (list string * value) :=
  flat_map (fun kc => map (push (fst kc)) (leaves (snd kc))) d.

(** Two paths neither of which is an initial part of the other. *)
Definition apart (p q : list string) : Prop :=
  is_prefix p q = false /\ is_prefix q p = false.

(** An entry of a flat mapping as a path and its leaf. *)
Definition key_path (kv : string * value) : list string * value :=
  (segments (fst kv), snd kv).

(** The two flags [Config.__call__] appends a second time. *)
Definition ISOLATE_ORIGINS : string :=
  "--disable-features=IsolateOrigins,site-per-process".
Definition CRASHED_BUBBLE : string := "--disable-session-crashed-bubble".

(** The directory [Default] of a profile, as [os.path.join] writes it. *)
Definition default_dir (udd : string) : string :=
  if (udd =? "") || Str.endswith_char posixpath.sep udd
  then (udd ++ "Default")%string
  else (udd ++ "/Default")%string.

(** The nested tree of [images_prefs]. *)
Definition images_tree : dict :=
  [("profile", VDict [("default_content_setting_values",
                       VDict [("images", VInt 2)])])].

(** No key of the mapping holds a dot. *)
Definition dotless (m : dict) : bool :=
  forallb (fun kv => negb (Str.has_char dot (fst kv))) m.

(** The first segment of a dotted key. *)
Definition first_segment (key : string) : string :=
  hd EmptyString (segments key).

(** The strings of a list in the order of their first appearance, each
    once. *)
Definition first_seen (l : list string) : list string :=
  fold_left (fun seen k => if Str.mem k seen then seen else seen ++ [k]) l [].

(** The calls that change what a Config renders. *)
Definition changes_arguments (k : call) : bool :=
  match k with
  | Call_add_argument _ | Call_set_user_data_dir _ => true
  | _ => false
  end.

(** The order of [sorted] on strings. *)
Definition str_le (x y : string) : Prop := String.leb x y = true.

(** [t'] is the tree [t] with one more directory, an empty one. *)
Definition one_more_dir (t t' : node) : Prop :=
  exists comps, place false comps (Dir []) t = Return t'.

(** The names [pos] lead to a directory of the tree. *)
Definition dir_at (t : node) (pos : list string) : Prop :=
  exists entries, resolve pos t = Some (Dir entries).

(** Every directory of [t] is a directory of [t'] and has kept its
    entries' names; every regular file of [t] is in [t'] as it was. *)
Definition keeps_dirs (t t' : node) : Prop :=
  forall pos entries,
    resolve pos t = Some (Dir entries) ->
    exists entries',
      resolve pos t' = Some (Dir entries')
      /\ forall name, dict_get name entries <> None ->
                      dict_get name entries' <> None.

Definition keeps_files (t t' : node) : Prop :=
  forall pos x,
    resolve pos t = Some x -> is_dir_node x = false -> resolve pos t' = Some x.

(** A component that is the name of an entry. *)
Definition plain (comp : string) : bool :=
  negb ((comp =? "") || (comp =? ".") || (comp =? "..")).

Definition is_zip_node (n : node) : bool :=
  match n with ZipFile _ => true | _ => false end.

(** The node is a file that holds a JSON object. *)
Definition is_json_object (n : node) : bool :=
  match n with
  | JsonFile (VDict _) => true
  | _ => false
  end.

(* ================================================================= *)
(** * Properties *)

(** ** Strings *)

Lemma eqb_char_eq (a b : ascii) : Str.eqb_char a b = true <-> a = b.
Proof. unfold Str.eqb_char. apply Ascii.eqb_eq. Qed.

Lemma partition_length c s h t :
  Str.partition c s = Some (h, t) ->
  String.length s = S (String.length h + String.length t).
Proof.
  revert h t. induction s as [|a s IH]; intros h t; simpl; [discriminate|].
  destruct (Str.eqb_char a c).
  - intros [= <- <-]. reflexivity.
  - destruct (Str.partition c s) as [[h' t']|]; [|discriminate].
    intros [= <- <-]. simpl. rewrite (IH h' t' eq_refl). reflexivity.
Qed.

Lemma split_partition_none c s :
  Str.partition c s = None -> Str.split c s = [s].
Proof.
  induction s as [|a s IH]; simpl; [reflexivity|].
  destruct (Str.eqb_char a c); [discriminate|].
  destruct (Str.partition c s) as [[h t]|]; [discriminate|].
  intros _. rewrite (IH eq_refl). reflexivity.
Qed.

Lemma split_partition_some c s h t :
  Str.partition c s = Some (h, t) -> Str.split c s = h :: Str.split c t.
Proof.
  revert h. induction s as [|a s IH]; intros h; simpl; [discriminate|].
  destruct (Str.eqb_char a c).
  - intros [= <- <-]. reflexivity.
  - destruct (Str.partition c s) as [[h' t']|]; [|discriminate].
    intros [= <- <-]. rewrite (IH h' eq_refl). reflexivity.
Qed.

Lemma split_nonempty c s : Str.split c s <> [].
Proof.
  destruct s as [|a s]; simpl; [discriminate|].
  destruct (Str.eqb_char a c); [discriminate|].
  destruct (Str.split c s); discriminate.
Qed.

(** Joining the pieces of a split gives the string back. *)
Lemma join_split c s : Str.join (String c EmptyString) (Str.split c s) = s.
Proof.
  induction s as [|a s IH]; [reflexivity|].
  simpl. destruct (Str.eqb_char a c) eqn:E.
  - apply eqb_char_eq in E. subst a.
    destruct (Str.split c s) as [|p ps] eqn:S; [now apply split_nonempty in S|].
    change (Str.join (String c "") ("" :: p :: ps))
      with (String c (Str.join (String c "") (p :: ps))).
    now rewrite IH.
  - destruct (Str.split c s) as [|p ps] eqn:S; [now apply split_nonempty in S|].
    destruct ps as [|q qs]; simpl in *; now rewrite <- IH.
Qed.

(** ** Dictionaries *)

Section DictFacts.
Variable V : Type.
Implicit Types (d : list (string * V)) (k : string) (v : V).

Lemma dict_get_set_same k v d : dict_get k (dict_set k v d) = Some v.
Proof.
  induction d as [|[k' w] d IH]; simpl.
  - now rewrite String.eqb_refl.
  - destruct (String.eqb k' k) eqn:E; simpl; rewrite E; auto.
Qed.

Lemma dict_get_set_other k k' v d :
  k <> k' -> dict_get k' (dict_set k v d) = dict_get k' d.
Proof.
  intros N. induction d as [|[k0 w] d IH]; simpl.
  - destruct (String.eqb k k') eqn:E; [apply String.eqb_eq in E; contradiction | reflexivity].
  - destruct (String.eqb k0 k) eqn:E; simpl.
    + apply String.eqb_eq in E. subst k0.
      destruct (String.eqb k k') eqn:E'; [apply String.eqb_eq in E'; contradiction | reflexivity].
    + destruct (String.eqb k0 k'); auto.
Qed.

Lemma dict_set_absent k v d :
  dict_get k d = None -> dict_set k v d = d ++ [(k, v)].
Proof.
  induction d as [|[k' w] d IH]; simpl; [reflexivity|].
  destruct (String.eqb k' k); [discriminate|].
  intros H. now rewrite IH.
Qed.

Lemma dict_set_present k v d w :
  dict_get k d = Some w ->
  exists d1 d2, d = d1 ++ (k, w) :: d2 /\ dict_set k v d = d1 ++ (k, v) :: d2
                /\ ~ In k (keys d1).
Proof.
  induction d as [|[k' w'] d IH]; simpl; [discriminate|].
  destruct (String.eqb k' k) eqn:E.
  - apply String.eqb_eq in E. subst k'. intros [= ->].
    exists [], d. simpl. auto.
  - intros H. destruct (IH H) as (d1 & d2 & -> & -> & N).
    exists ((k', w') :: d1), d2. simpl. repeat split; auto.
    apply String.eqb_neq in E. intros [?|?]; auto.
Qed.

End DictFacts.

(** ** prefs_to_json: the equations of the source *)

(** [deep_merge] runs its loop body once per item of [dict2]. *)
Lemma deep_merge_fold dict1 dict2 :
  deep_merge dict1 dict2 = fold_left merge_item dict2 dict1.
Proof.
  unfold deep_merge. simpl.
  revert dict1. induction dict2 as [|[key value] rest IH]; intros dict1.
  - reflexivity.
  - simpl fold_left. rewrite <- IH. clear IH.
    f_equal. unfold merge_item.
    destruct (dict_get key dict1) as [[]|]; try reflexivity.
    destruct value; reflexivity.
Qed.

Lemma merge_item_set result key value :
  merge_item result (key, value)
  = dict_set key (merged (dict_get key result) value) result.
Proof.
  unfold merge_item, merged.
  destruct (dict_get key result) as [[]|]; try reflexivity.
  destruct value; reflexivity.
Qed.

Lemma deep_merge_single dict1 key value :
  deep_merge dict1 [(key, value)]
  = dict_set key (merged (dict_get key dict1) value) dict1.
Proof. rewrite deep_merge_fold. simpl. apply merge_item_set. Qed.

Lemma undot_key_fuel_enough fuel key value :
  String.length key <= fuel ->
  undot_key_fuel fuel key value = undot_key key value.
Proof.
  unfold undot_key, Str.len.
  remember (String.length key) as n eqn:Hn.
  assert (Hle : String.length key <= n) by lia. clear Hn.
  revert key n Hle. induction fuel as [|fuel IH]; intros key n Hle Hf.
  - assert (n = 0) by lia. now subst.
  - destruct n as [|n].
    + destruct key; simpl in Hle; [reflexivity | lia].
    + simpl. destruct (Str.partition dot key) as [[h t]|] eqn:P; [|reflexivity].
      apply partition_length in P.
      do 3 f_equal. apply IH; lia.
Qed.

(** The body of [undot_key]. *)
Lemma undot_key_eq key value :
  undot_key key value =
  match Str.partition dot key with
  | Some (key', rest) => [(key', VDict (undot_key rest value))]
  | None => [(key, value)]
  end.
Proof.
  unfold undot_key at 1, Str.len. destruct key as [|a key].
  - reflexivity.
  - cbn [String.length undot_key_fuel].
    destruct (Str.partition dot (String a key)) as [[h t]|] eqn:P; [|reflexivity].
    apply partition_length in P.
    do 3 f_equal. apply undot_key_fuel_enough. simpl in P. lia.
Qed.

(** [undot_key] builds the one-branch tree of the segments of the key. *)
Lemma undot_key_nest key value :
  VDict (undot_key key value) = nest (segments key) value.
Proof.
  unfold segments.
  remember (String.length key) as n eqn:Hn.
  assert (Hle : String.length key <= n) by lia. clear Hn.
  revert key Hle. induction n as [|n IH]; intros key Hle.
  - destruct key; [reflexivity | simpl in Hle; lia].
  - rewrite undot_key_eq.
    destruct (Str.partition dot key) as [[h t]|] eqn:P.
    + rewrite (split_partition_some _ _ P). simpl.
      apply partition_length in P. rewrite IH by lia. reflexivity.
    + now rewrite (split_partition_none _ _ P).
Qed.

Lemma prefs_to_json_snoc prefs key value :
  prefs_to_json (prefs ++ [(key, value)])
  = deep_merge (prefs_to_json prefs) (undot_key key value).
Proof. unfold prefs_to_json. now rewrite fold_left_app. Qed.

(** ** prefs_to_json: paths *)

Lemma get_path_nest path v : get_path path (nest path v) = Some v.
Proof.
  induction path as [|k rest IH]; simpl; [reflexivity|].
  now rewrite String.eqb_refl.
Qed.

Lemma get_path_scalar k rest v :
  is_dict v = false -> get_path (k :: rest) v = None.
Proof. destruct v; simpl; congruence. Qed.

(** Merging the one-branch tree of a path: what ends up at the path is the
    union of the mappings when the old and the new value are mappings, and
    the new value otherwise. *)
Lemma get_path_deep_merge rest : forall k t v,
  get_path (k :: rest) (VDict (deep_merge t [(k, nest rest v)]))
  = Some (merged (get_path (k :: rest) (VDict t)) v).
Proof.
  induction rest as [|k' r IH]; intros k t v;
    rewrite deep_merge_single;
    change (get_path (k :: ?p) (VDict ?d))
      with (match dict_get k d with
            | Some child => get_path p child
            | None => None
            end);
    rewrite dict_get_set_same.
  - cbn [nest get_path]. now destruct (dict_get k t).
  - change (nest (k' :: r) v) with (VDict [(k', nest r v)]).
    destruct (dict_get k t) as [old|] eqn:G.
    + destruct (is_dict old) eqn:D.
      * destruct old; try discriminate. cbn [merged]. apply IH.
      * rewrite (get_path_scalar k' r old D).
        replace (merged (Some old) (VDict [(k', nest r v)]))
          with (nest (k' :: r) v) by (destruct old; try reflexivity; discriminate).
        now rewrite get_path_nest.
    + cbn [merged]. change (VDict [(k', nest r v)]) with (nest (k' :: r) v).
      now rewrite get_path_nest.
Qed.

Lemma undot_key_segments key value :
  exists k rest, segments key = k :: rest
                 /\ undot_key key value = [(k, nest rest value)].
Proof.
  pose proof (undot_key_nest key value) as H.
  destruct (segments key) as [|k rest] eqn:S.
  - now apply split_nonempty in S.
  - exists k, rest. split; [reflexivity|]. simpl in H. congruence.
Qed.

Example prefs_to_json_demo :
  prefs_to_json [("a.b.c", VInt 1); ("x", VBool true); ("a.b.d", VInt 2);
                 ("a.e", VInt 3)]
  = [("a", VDict [("b", VDict [("c", VInt 1); ("d", VInt 2)]); ("e", VInt 3)]);
     ("x", VBool true)].
Proof. reflexivity. Qed.

Example prefs_to_json_scalar_then_mapping :
  prefs_to_json [("a.b", VInt 1); ("a.b.c", VInt 2)]
  = [("a", VDict [("b", VDict [("c", VInt 2)])])].
Proof. reflexivity. Qed.

Example prefs_to_json_mapping_then_scalar :
  prefs_to_json [("a.b.c", VInt 2); ("a.b", VInt 1)]
  = [("a", VDict [("b", VInt 1)])].
Proof. reflexivity. Qed.

(** C3. prefs_to_json turns dotted keys into a nested mapping by deep merge:
    the empty mapping gives the empty mapping; each flat key in turn is
    merged as its one-branch tree; at a key, two mappings are merged
    recursively and keep every other child, anything else is replaced by the
    value of the later flat key; so at the path of the flat key inserted last
    lies the union of the old and the new mapping when both are mappings, and
    the new value otherwise; and the two-key example gives the nested tree
    of the spec. *)
Theorem prefs_to_json_deep_merge :
  prefs_to_json [] = []
  /\ prefs_to_json [("a.b.c", VInt 1); ("a.b.d", VInt 2)]
     = [("a", VDict [("b", VDict [("c", VInt 1); ("d", VInt 2)])])]
  /\ (forall prefs key value,
         prefs_to_json (prefs ++ [(key, value)])
         = deep_merge (prefs_to_json prefs) (undot_key key value))
  /\ (forall dict1 dict2, deep_merge dict1 dict2 = fold_left merge_item dict2 dict1)
  /\ (forall result key value k,
         dict_get k (merge_item result (key, value))
         = if key =? k then Some (merged (dict_get key result) value)
           else dict_get k result)
  /\ (forall prefs key value,
         get_path (segments key) (VDict (prefs_to_json (prefs ++ [(key, value)])))
         = Some (merged (get_path (segments key) (VDict (prefs_to_json prefs)))
                        value)).
Proof.
  split; [reflexivity|]. split; [reflexivity|].
  split; [apply prefs_to_json_snoc|]. split; [apply deep_merge_fold|]. split.
  - intros result key value k. rewrite merge_item_set.
    destruct (key =? k) eqn:E.
    + apply String.eqb_eq in E. subst k. apply dict_get_set_same.
    + apply String.eqb_neq in E. now apply dict_get_set_other.
  - intros prefs key value. rewrite prefs_to_json_snoc.
    destruct (undot_key_segments key value) as (k & rest & -> & ->).
    apply get_path_deep_merge.
Qed.

(** ** prefs_to_json: leaves and flatten *)

Lemma leaves_VDict d : leaves (VDict d) = leaves_dict d.
Proof.
  unfold leaves_dict. induction d as [|[k child] d IH]; [reflexivity|].
  simpl in *. now rewrite IH.
Qed.

Lemma leaves_dict_app d1 d2 :
  leaves_dict (d1 ++ d2) = leaves_dict d1 ++ leaves_dict d2.
Proof. unfold leaves_dict. apply flat_map_app. Qed.

Lemma leaves_scalar v : is_dict v = false -> leaves v = [([], v)].
Proof. destruct v; simpl; congruence. Qed.

Lemma leaves_nest path v :
  is_dict v = false -> leaves (nest path v) = [(path, v)].
Proof.
  intros S. induction path as [|k rest IH]; simpl.
  - now apply leaves_scalar.
  - rewrite IH. reflexivity.
Qed.

Lemma is_prefix_cons k p q : is_prefix (k :: p) (k :: q) = is_prefix p q.
Proof. simpl. now rewrite String.eqb_refl. Qed.

Lemma apart_cons k p q : apart (k :: p) (k :: q) -> apart p q.
Proof. unfold apart. now rewrite !is_prefix_cons. Qed.

Lemma in_leaves_entry d1 k w d2 q x :
  In (q, x) (leaves w) ->
  In (k :: q, x) (leaves (VDict (d1 ++ (k, w) :: d2))).
Proof.
  intros H. rewrite leaves_VDict, leaves_dict_app. apply in_or_app. right.
  simpl. apply in_or_app. left.
  change (k :: q, x) with (push k (q, x)). now apply in_map.
Qed.

(** Merging the one-branch tree of a path that is apart from every leaf,
    with a leaf that is no mapping, adds that one leaf and keeps the
    others. *)
Lemma leaves_deep_merge rest : forall k t v,
  is_dict v = false ->
  (forall q x, In (q, x) (leaves (VDict t)) -> apart q (k :: rest)) ->
  Permutation (leaves (VDict (deep_merge t [(k, nest rest v)])))
              (leaves (VDict t) ++ [(k :: rest, v)]).
Proof.
  induction rest as [|k' r IH]; intros k t v S A; rewrite deep_merge_single.
  - (* the key has one segment *)
    cbn [nest]. destruct (dict_get k t) as [w|] eqn:G.
    + destruct (dict_set_present k (merged (Some w) v) t G)
        as (d1 & d2 & -> & -> & _).
      assert (W : leaves w = []).
      { destruct (leaves w) as [|[q x] l] eqn:L; [reflexivity|].
        destruct (A (k :: q) x) as [_ P].
        - apply in_leaves_entry. rewrite L. now left.
        - simpl in P. rewrite String.eqb_refl in P. discriminate. }
      replace (merged (Some w) v) with v
        by (destruct w; try reflexivity; destruct v; try reflexivity; discriminate).
      rewrite !leaves_VDict, !leaves_dict_app. simpl.
      rewrite W, (leaves_scalar v S). simpl.
      rewrite <- app_assoc. apply Permutation_app_head.
      apply (Permutation_app_comm [([k], v)] (leaves_dict d2)).
    + rewrite (dict_set_absent k _ t G). cbn [merged].
      rewrite !leaves_VDict, leaves_dict_app. simpl.
      rewrite (leaves_scalar v S). reflexivity.
  - (* the key goes on below [k] *)
    change (nest (k' :: r) v) with (VDict [(k', nest r v)]).
    destruct (dict_get k t) as [w|] eqn:G.
    + destruct (dict_set_present k (merged (Some w) (VDict [(k', nest r v)])) t G)
        as (d1 & d2 & -> & -> & _).
      destruct (is_dict w) eqn:D.
      * destruct w as [| | | | |a|]; try discriminate. cbn [merged].
        assert (P : Permutation (leaves (VDict (deep_merge a [(k', nest r v)])))
                                (leaves (VDict a) ++ [(k' :: r, v)])).
        { apply IH; [assumption|]. intros q x I.
          apply apart_cons with (k := k). apply (A (k :: q) x).
          now apply in_leaves_entry. }
        rewrite !leaves_VDict, !leaves_dict_app. simpl.
        rewrite <- !leaves_VDict.
        rewrite <- !app_assoc. apply Permutation_app_head.
        apply (Permutation_map (push k)) in P. rewrite map_app in P. simpl in P.
        rewrite P. rewrite <- !app_assoc. apply Permutation_app_head.
        apply Permutation_app_comm.
      * exfalso. destruct (A [k] w) as [P _].
        -- apply in_leaves_entry with (q := []). rewrite (leaves_scalar w D). now left.
        -- simpl in P. rewrite String.eqb_refl in P. discriminate.
    + rewrite (dict_set_absent k _ t G). cbn [merged].
      rewrite !leaves_VDict, leaves_dict_app.
      change (VDict [(k', nest r v)]) with (nest (k' :: r) v).
      unfold leaves_dict at 2. cbn [flat_map fst snd].
      rewrite (leaves_nest (k' :: r) v S). reflexivity.
Qed.

Lemma collision_free_app m kv :
  collision_free (m ++ [kv]) = true ->
  collision_free m = true
  /\ forall y, In y m -> collide (fst y) (fst kv) = false.
Proof.
  induction m as [|[k v] m IH]; simpl.
  - intros _. split; [reflexivity | intros ? []].
  - rewrite forallb_app. simpl. rewrite !andb_true_iff.
    intros [[F [N _]] C]. destruct (IH C) as [C' A]. split; [now split|].
    intros y [<-|I]; [|now apply A].
    simpl. now apply negb_true_iff in N.
Qed.

(** The leaves of the tree are the entries of the flat mapping. *)
Lemma leaves_prefs_to_json m :
  collision_free m = true -> scalar_values m = true ->
  Permutation (leaves (VDict (prefs_to_json m))) (map key_path m).
Proof.
  induction m as [|[key v] m IH] using rev_ind; intros C S.
  - reflexivity.
  - apply collision_free_app in C. destruct C as [C A].
    unfold scalar_values in *. rewrite forallb_app in S.
    apply andb_true_iff in S. destruct S as [S Sv]. simpl in Sv.
    rewrite andb_true_r in Sv. apply negb_true_iff in Sv.
    specialize (IH C S).
    rewrite prefs_to_json_snoc, map_app. simpl.
    destruct (undot_key_segments key v) as (k & rest & Seg & ->).
    unfold key_path at 2. simpl. rewrite Seg.
    rewrite <- IH. apply leaves_deep_merge; [assumption|].
    intros q x I.
    apply (Permutation_in _ IH) in I. apply in_map_iff in I.
    destruct I as ([k0 v0] & [= <- <-] & I).
    specialize (A _ I). simpl in A. unfold collide in A.
    apply orb_false_iff in A. rewrite Seg in A. exact A.
Qed.

Lemma flatten_key_path m :
  map (fun leaf => (Str.join "." (fst leaf), snd leaf)) (map key_path m) = m.
Proof.
  induction m as [|[k v] m IH]; [reflexivity|].
  simpl. rewrite IH. unfold segments. f_equal. f_equal. apply (join_split dot k).
Qed.

Lemma flatten_prefs_to_json m :
  collision_free m = true -> scalar_values m = true ->
  Permutation (flatten (prefs_to_json m)) m.
Proof.
  intros C S. unfold flatten.
  rewrite (leaves_prefs_to_json m C S). now rewrite flatten_key_path.
Qed.

(** C8, as the spec states it, fails when a value of the flat mapping is a
    mapping itself: two collision-free flat mappings that are not the same
    mapping get the same tree, and flatten does not give the first back. *)
Lemma flatten_left_inverse_counterexample :
  let m1 := [("a", VDict [("b", VInt 1)])] in
  let m2 := [("a.b", VInt 1)] in
  collision_free m1 = true /\ collision_free m2 = true
  /\ prefs_to_json m1 = prefs_to_json m2
  /\ ~ Permutation m1 m2
  /\ ~ Permutation (flatten (prefs_to_json m1)) m1.
Proof.
  cbv zeta. repeat split; try reflexivity.
  - intros P. apply Permutation_length_1 in P. discriminate.
  - intros P. vm_compute in P. apply Permutation_length_1 in P. discriminate.
Qed.

(** C8, amended.  For every flat mapping in which no two keys collide (none
    equals or is a dotted prefix of another) and no value is a mapping,
    flatten gives back the entries of the mapping (up to their order, which
    a mapping does not observe), and prefs_to_json is injective on such
    mappings: two of them with the same tree, or with trees that have the
    same leaves in whatever order, have the same entries. *)
Theorem flatten_left_inverse :
  (forall m, collision_free m = true -> scalar_values m = true ->
             Permutation (flatten (prefs_to_json m)) m)
  /\ (forall m1 m2,
         collision_free m1 = true -> scalar_values m1 = true ->
         collision_free m2 = true -> scalar_values m2 = true ->
         prefs_to_json m1 = prefs_to_json m2 -> Permutation m1 m2)
  /\ (forall m1 m2,
         collision_free m1 = true -> scalar_values m1 = true ->
         collision_free m2 = true -> scalar_values m2 = true ->
         Permutation (leaves (VDict (prefs_to_json m1)))
                     (leaves (VDict (prefs_to_json m2))) ->
         Permutation m1 m2).
Proof.
  assert (I : forall m1 m2,
             collision_free m1 = true -> scalar_values m1 = true ->
             collision_free m2 = true -> scalar_values m2 = true ->
             Permutation (leaves (VDict (prefs_to_json m1)))
                         (leaves (VDict (prefs_to_json m2))) ->
             Permutation m1 m2).
  { intros m1 m2 C1 S1 C2 S2 E.
    rewrite <- (flatten_prefs_to_json m1 C1 S1), <- (flatten_prefs_to_json m2 C2 S2).
    unfold flatten. now apply Permutation_map. }
  split; [apply flatten_prefs_to_json|]. split; [|exact I].
  intros m1 m2 C1 S1 C2 S2 E. apply I; try assumption. now rewrite E.
Qed.

Lemma flatten_left_inverse_witness :
  let m := [("a.x", VInt 1); ("b", VStr "s"); ("a.y.z", VBool true)] in
  let m' := [("b", VStr "s"); ("a.y.z", VBool true); ("a.x", VInt 1)] in
  Permutation (flatten (prefs_to_json m)) m
  /\ (prefs_to_json m = prefs_to_json m -> Permutation m m)
  /\ Permutation m m'.
Proof.
  cbv zeta. destruct flatten_left_inverse as (F & I & L).
  split; [apply F; reflexivity|]. split; [apply I; reflexivity|].
  apply L; try reflexivity. vm_compute.
  apply perm_trans with (l' := [(["a"; "y"; "z"], VBool true); (["a"; "x"], VInt 1);
                                (["b"], VStr "s")]).
  - apply perm_swap.
  - apply perm_trans with (l' := [(["a"; "y"; "z"], VBool true); (["b"], VStr "s");
                                  (["a"; "x"], VInt 1)]).
    + apply perm_skip, perm_swap.
    + apply perm_swap.
Defined.

(** ** Config: the argument list *)

Lemma mem_In x l : Str.mem x l = true <-> In x l.
Proof.
  unfold Str.mem. rewrite existsb_exists. split.
  - intros (y & I & E). apply String.eqb_eq in E. now subst.
  - intros I. exists x. split; [assumption | apply String.eqb_refl].
Qed.

Lemma count_app x l1 l2 : count x (l1 ++ l2) = count x l1 + count x l2.
Proof. unfold count. now rewrite filter_app, length_app. Qed.

Lemma count_notin x l : ~ In x l -> count x l = 0.
Proof.
  unfold count. induction l as [|y l IH]; simpl; [reflexivity|].
  intros N. destruct (x =? y) eqn:E.
  - apply String.eqb_eq in E. subst. exfalso. auto.
  - apply IH. auto.
Qed.

Lemma if_app (b : bool) (l x : list string) :
  (if b then l ++ x else l) = l ++ (if b then x else []).
Proof. destruct b; [reflexivity | now rewrite app_nil_r]. Qed.

Lemma if_filter (f : string -> bool) (l : list string) :
  (if negb (posixpath.is_nil l) then filter f l else []) = filter f l.
Proof. now destruct l. Qed.

Lemma assemble_parts self :
  assemble self = base self ++ kept_extras self ++ switches self.
Proof.
  unfold assemble, kept_extras, switches, base. cbv zeta.
  rewrite !if_app, if_filter, <- !app_assoc. reflexivity.
Qed.

Lemma kept_extras_spec self arg :
  In arg (kept_extras self)
  <-> In arg (_browser_args self) /\ ~ In arg (base self).
Proof.
  unfold kept_extras. rewrite filter_In, negb_true_iff.
  pose proof (mem_In arg (base self)) as M.
  destruct (Str.mem arg (base self)); intuition congruence.
Qed.

Lemma apply_prefs_self self w c' w' :
  apply_prefs self w = (Return c', w') ->
  c' = self \/ c' = with_prefs_applied self.
Proof.
  unfold apply_prefs.
  destruct (posixpath.is_nil (prefs self) || _prefs_applied self).
  - intros [= <- <-]. now left.
  - unfold bind at 1.
    destruct (os_makedirs _ w) as [[[]|e] w1]; [|discriminate].
    unfold try_except.
    match goal with |- context [match ?b w1 with _ => _ end] => destruct (b w1) as [[a|e] w2] eqn:Body end.
    + intros [= <- <-].
      revert Body. unfold bind.
      repeat match goal with
             | |- context [match ?m ?w with _ => _ end] =>
                 lazymatch m with
                 | context [w1] => fail
                 | _ => destruct (m w) as [[?|?] ?]; try discriminate
                 end
             end.
      all: try (unfold ret; intros [= <-]; now right).
    + unfold bind, logger_warning, ret. intros [= <- <-]. now left.
Qed.

Lemma Config_call_result self w args c' w' :
  Config_call self w = (Return (args, c'), w') ->
  args = assemble self /\ (c' = self \/ c' = with_prefs_applied self).
Proof.
  unfold Config_call, bind.
  destruct (apply_prefs self w) as [[c1|e] w1] eqn:A; [|discriminate].
  unfold ret. intros [= <- <- <-].
  apply apply_prefs_self in A. split; [|assumption].
  destruct A as [->| ->]; reflexivity.
Qed.

Lemma count_switches self :
  count ISOLATE_ORIGINS (switches self) = 0
  /\ count CRASHED_BUBBLE (switches self) = 0.
Proof.
  unfold switches.
  destruct (headless self), (negb (sandbox self)), (truthy_str (host self)),
           (truthy_int (port self)); split; reflexivity.
Qed.

Lemma count_base self :
  _default_browser_args self = DEFAULT_BROWSER_ARGS ->
  count ISOLATE_ORIGINS (base self) = 2 /\ count CRASHED_BUBBLE (base self) = 2.
Proof.
  intros D. unfold base. rewrite D. destruct (expert self); split; reflexivity.
Qed.

Lemma in_base self :
  _default_browser_args self = DEFAULT_BROWSER_ARGS ->
  In ISOLATE_ORIGINS (base self) /\ In CRASHED_BUBBLE (base self).
Proof.
  intros D. unfold base. rewrite D.
  split; apply in_or_app; left; simpl; tauto.
Qed.

(** C1, as the spec states it, fails on the default Config: the list it
    renders holds the crash-bubble-disabling flag twice. *)
Lemma rendered_no_duplicates_counterexample :
  match Config_init demo_host Init.default demo_world with
  | (Return c, w) =>
      match Config_call c w with
      | (Return (args, _), _) =>
          distinct args = false /\ count CRASHED_BUBBLE args = 2
      | _ => False
      end
  | _ => False
  end.
Proof. vm_compute. split; reflexivity. Qed.

(** C1, amended.  The list a Config renders is the baseline arguments, the
    user-data-dir flag, the two re-appended flags and the expert flags, then
    the extra arguments that are not in that stretch already, then the
    headless, no-sandbox, host and port flags.  The baseline arguments and
    the user-data-dir flag are pairwise distinct and no extra argument that
    the first stretch holds is appended again; nothing is deduplicated at
    the end: the origin-isolation and the crash-bubble flag are in the list
    twice each. *)
Theorem rendered_duplicates self w args c' w' :
  _default_browser_args self = DEFAULT_BROWSER_ARGS ->
  Config_call self w = (Return (args, c'), w') ->
  args = base self ++ kept_extras self ++ switches self
  /\ distinct (DEFAULT_BROWSER_ARGS
               ++ [("--user-data-dir=" ++ user_data_dir self)%string]) = true
  /\ (forall arg, In arg (kept_extras self) <->
                  In arg (_browser_args self) /\ ~ In arg (base self))
  /\ count ISOLATE_ORIGINS args = 2
  /\ count CRASHED_BUBBLE args = 2.
Proof.
  intros D R. apply Config_call_result in R. destruct R as [-> _].
  rewrite assemble_parts.
  split; [reflexivity|]. split; [reflexivity|].
  split; [apply kept_extras_spec|].
  rewrite !count_app.
  destruct (count_base self D) as [-> ->].
  destruct (count_switches self) as [-> ->].
  destruct (in_base self D) as [I1 I2].
  rewrite !count_notin; [split; reflexivity | |];
    intros K; apply kept_extras_spec in K; tauto.
Qed.

Lemma Config_init_default_args h a w self w' :
  Config_init h a w = (Return self, w') ->
  _default_browser_args self = DEFAULT_BROWSER_ARGS
  /\ _browser_args self
     = updated kw_browser_args (Init.kwargs a)
               (match Init.browser_args a with Some l => l | None => [] end)
  /\ _prefs_applied self = updated kw_prefs_applied (Init.kwargs a) false
  /\ sandbox self = (if is_posix h && is_root h && Init.sandbox a then false
                     else Init.sandbox a).
Proof.
  unfold Config_init, bind.
  match goal with
  | |- context [match (if ?b then ?x else ?y) w with _ => _ end] =>
      destruct ((if b then x else y) w) as [[dir|e] w1]; [|discriminate]
  end.
  match goal with
  | |- context [match (if ?b then ?x else ?y) w1 with _ => _ end] =>
      destruct ((if b then x else y) w1) as [[exe|e] w2]; [|discriminate]
  end.
  destruct (is_posix h && is_root h && Init.sandbox a);
    unfold logger_info, ret; intros [= <- <-]; auto.
Qed.

Lemma rendered_duplicates_witness :
  let args := assemble demo_config in
  args = base demo_config ++ kept_extras demo_config ++ switches demo_config
  /\ distinct (DEFAULT_BROWSER_ARGS
               ++ [("--user-data-dir=" ++ user_data_dir demo_config)%string]) = true
  /\ (forall arg, In arg (kept_extras demo_config) <->
                  In arg (_browser_args demo_config) /\ ~ In arg (base demo_config))
  /\ count ISOLATE_ORIGINS args = 2
  /\ count CRASHED_BUBBLE args = 2.
Proof.
  exact (@rendered_duplicates demo_config demo_world (assemble demo_config)
           demo_config demo_world eq_refl eq_refl).
Defined.

(** ** Config: what a call changes *)

Lemma add_extension_self self p w c' w' :
  add_extension self p w = (Return c', w') ->
  c' = self \/ exists e, c' = append_extension self e.
Proof.
  unfold add_extension, bind.
  destruct (Path_exists (Path_of p) w) as [[present|e] w1]; [|discriminate].
  destruct present; cbn [negb]; [|discriminate].
  destruct (Path_is_file (Path_of p) w1) as [[file|e] w2]; [|discriminate].
  destruct file.
  - destruct (token_hex w2) as [[suffix|e] w3]; [|discriminate].
    destruct (mkdtemp "extension_" suffix w3) as [[tf|e] w4]; [|discriminate].
    destruct (zip_extractall (Path_of p) tf w4) as [[[]|e] w5]; [|discriminate].
    unfold ret. intros [= <- <-]. right. eauto.
  - destruct (Path_is_dir (Path_of p) w2) as [[directory|e] w3]; [|discriminate].
    destruct directory.
    + destruct (Path_rglob_manifest (Path_of p) w3) as [[items|e] w4]; [|discriminate].
      unfold ret. intros [= <- <-]. right. eauto.
    + unfold ret. intros [= <- <-]. now left.
Qed.

(** What one call leaves as it was. *)
Lemma run_frame k self w :
  let c' := fst (run k self w) in
  sandbox c' = sandbox self
  /\ _default_browser_args c' = _default_browser_args self
  /\ (_prefs_applied self = true -> _prefs_applied c' = true)
  /\ (_browser_args c' = _browser_args self
      \/ exists arg, reserved arg = false
                     /\ _browser_args c' = _browser_args self ++ [arg]).
Proof.
  destruct k as [arg|p| | |p|d]; cbn [run].
  - unfold add_argument. destruct (reserved arg) eqn:R; cbn.
    + repeat split; auto.
    + repeat split; auto. right. exists arg. now split.
  - destruct (add_extension self p w) as [[c'|e] w'] eqn:A; cbn;
      [|repeat split; auto].
    apply add_extension_self in A.
    destruct A as [->|[e ->]]; cbn; repeat split; auto.
  - destruct (apply_prefs self w) as [[c'|e] w'] eqn:A; cbn;
      [|repeat split; auto].
    apply apply_prefs_self in A.
    destruct A as [->| ->]; cbn; repeat split; auto.
  - destruct (Config_call self w) as [[[args c']|e] w'] eqn:A; cbn;
      [|repeat split; auto].
    apply Config_call_result in A.
    destruct A as [_ [->| ->]]; cbn; repeat split; auto.
  - cbn. repeat split; auto.
  - cbn. repeat split; auto.
Qed.

Lemma later_frame c c' :
  later c c' ->
  sandbox c' = sandbox c
  /\ _default_browser_args c' = _default_browser_args c
  /\ (_prefs_applied c = true -> _prefs_applied c' = true)
  /\ (forallb (fun arg => negb (reserved arg)) (_browser_args c) = true ->
      forallb (fun arg => negb (reserved arg)) (_browser_args c') = true).
Proof.
  induction 1 as [|c' k w L (S & D & P & B)].
  - auto.
  - destruct (run_frame k c' w) as (S' & D' & P' & B').
    repeat split; try congruence; auto.
    intros F. specialize (B F). destruct B' as [->|(arg & R & ->)]; [assumption|].
    rewrite forallb_app, B. simpl. now rewrite R.
Qed.

(** A Config that was built by [Config_init] keeps the baseline list. *)
Lemma later_default_args h a w c w' c' :
  Config_init h a w = (Return c, w') -> later c c' ->
  _default_browser_args c' = DEFAULT_BROWSER_ARGS.
Proof.
  intros I L. destruct (Config_init_default_args _ _ _ I) as (D & _).
  destruct (later_frame L) as (_ & D' & _). congruence.
Qed.

(** ** C6: the guard of add_argument *)

(** C6, as the spec states it, fails at construction: [Config.__init__]
    stores [browser_args] as it gets it, reserved values included. *)
Lemma extra_arguments_never_reserved_counterexample :
  match Config_init demo_host
          (Init.mk None false None (Some ["--headless=new"]) true "en-US"
                   None None None false [])
          demo_world with
  | (Return c, _) =>
      _browser_args c = ["--headless=new"] /\ reserved "--headless=new" = true
  | _ => False
  end.
Proof. vm_compute. split; reflexivity. Qed.

(** A keyword argument [_browser_args] does the same: it replaces the list
    that [browser_args] gave, reserved values included. *)
Example keyword_browser_args_unchecked :
  match Config_init demo_host
          (Init.mk None false None (Some ["--x"]) true "en-US"
                   None None None false
                   [Kw_browser_args ["--no-sandbox"]])
          demo_world with
  | (Return c, _) =>
      _browser_args c = ["--no-sandbox"] /\ reserved "--no-sandbox" = true
  | _ => False
  end.
Proof. vm_compute. split; reflexivity. Qed.

(** What [updated] comes to: the assigned value when no keyword names the
    attribute, the value of a keyword that does otherwise. *)
Lemma updated_spec {A} (pick : keyword -> option A) kwargs : forall assigned,
  (updated pick kwargs assigned = assigned
   /\ forall k, In k kwargs -> pick k = None)
  \/ exists k, In k kwargs /\ pick k = Some (updated pick kwargs assigned).
Proof.
  unfold updated. induction kwargs as [|k kwargs IH]; intros assigned.
  - left. split; [reflexivity | intros k []].
  - cbn [fold_left].
    destruct (IH (match pick k with Some x => x | None => assigned end))
      as [[E N]|(k' & I & P)].
    + rewrite E. destruct (pick k) as [x|] eqn:P.
      * right. exists k. split; [now left | exact P].
      * left. split; [reflexivity|]. intros k' [<-|I]; auto.
    + right. exists k'. split; [now right | exact P].
Qed.

Lemma updated_absent {A} (pick : keyword -> option A) kwargs assigned :
  (forall k, In k kwargs -> pick k = None) ->
  updated pick kwargs assigned = assigned.
Proof.
  intros N. destruct (updated_spec pick kwargs assigned) as [[E _]|(k & I & P)];
    [exact E|]. rewrite (N _ I) in P. discriminate.
Qed.

Lemma updated_present {A} (pick : keyword -> option A) kwargs assigned k x :
  In k kwargs -> pick k = Some x ->
  (forall k' x', In k' kwargs -> pick k' = Some x' -> x' = x) ->
  updated pick kwargs assigned = x.
Proof.
  intros I P U. destruct (updated_spec pick kwargs assigned) as [[_ N]|(k' & I' & P')].
  - rewrite (N _ I) in P. discriminate.
  - exact (U _ _ I' P').
Qed.

(** C6, amended.  add_argument raises ValueError for a value whose lowercase
    form contains a reserved substring and leaves the instance as it was;
    any other value it appends.  Construction stores without a check the
    list it is given: the [browser_args] parameter (the empty list when it
    is left out), or, when there is a keyword argument [_browser_args], the
    list of that keyword.  So when the list stored at construction holds no
    reserved value, no later call brings one into [_browser_args]. *)
Theorem add_argument_guard :
  (forall self arg, reserved arg = true ->
                    exists msg, add_argument self arg = Raise (ValueError msg))
  /\ (forall self arg, reserved arg = false ->
                       add_argument self arg = Return (append_browser_arg self arg))
  /\ (forall h a w c w', Config_init h a w = (Return c, w') ->
        (forall args, ~ In (Kw_browser_args args) (Init.kwargs a)) ->
        _browser_args c
        = match Init.browser_args a with Some l => l | None => [] end)
  /\ (forall h a w c w' args, Config_init h a w = (Return c, w') ->
        In (Kw_browser_args args) (Init.kwargs a) ->
        (forall args', In (Kw_browser_args args') (Init.kwargs a) -> args' = args) ->
        _browser_args c = args)
  /\ (forall c c', later c c' ->
        forallb (fun arg => negb (reserved arg)) (_browser_args c) = true ->
        forallb (fun arg => negb (reserved arg)) (_browser_args c') = true).
Proof.
  split; [|split; [|split; [|split]]].
  - intros self arg R. unfold add_argument. rewrite R. eauto.
  - intros self arg R. unfold add_argument. now rewrite R.
  - intros h a w c w' I N.
    destruct (Config_init_default_args _ _ _ I) as (_ & -> & _).
    apply updated_absent. intros [] K; try reflexivity. now apply N in K.
  - intros h a w c w' args I K U.
    destruct (Config_init_default_args _ _ _ I) as (_ & -> & _).
    apply (updated_present kw_browser_args _ _ _ K eq_refl).
    intros [] x' K' [= <-]. now apply U.
  - intros c c' L. now destruct (later_frame L) as (_ & _ & _ & B).
Qed.

Lemma add_argument_guard_witness :
  (exists msg, add_argument demo_config "--Headless=new" = Raise (ValueError msg))
  /\ add_argument demo_config "--custom-flag=1"
     = Return (append_browser_arg demo_config "--custom-flag=1")
  /\ _browser_args root_config = []
  /\ (exists c w',
        Config_init demo_host
          (Init.mk None false None (Some ["--x"]) true "en-US" None None None
                   false [Kw_browser_args ["--mute-audio"]])
          demo_world = (Return c, w')
        /\ _browser_args c = ["--mute-audio"])
  /\ forallb (fun arg => negb (reserved arg))
             (_browser_args
                (fst (run (Call_add_argument "--user_data_dir=/x")
                          (fst (run (Call_add_argument "--custom-flag=1")
                                    demo_config demo_world))
                          demo_world))) = true.
Proof.
  destruct add_argument_guard as (G1 & G2 & G3 & G4 & G5).
  split; [apply G1; reflexivity|]. split; [apply G2; reflexivity|].
  split; [|split].
  - apply (G3 demo_host Init.default demo_world root_config root_world);
      [reflexivity | intros args []].
  - assert (I : Config_init demo_host
                  (Init.mk None false None (Some ["--x"]) true "en-US" None None
                           None false [Kw_browser_args ["--mute-audio"]])
                  demo_world
                = (Return (mkConfig "/tmp/uc_0" false ["--mute-audio"]
                             "/usr/bin/google-chrome" false false None None
                             false [] true "en-US" [] false []
                             DEFAULT_BROWSER_ARGS),
                   root_world)) by reflexivity.
    do 2 eexists. split; [exact I|].
    apply (G4 _ _ _ _ _ ["--mute-audio"] I).
    + now left.
    + intros args' [[= <-]|[]]. reflexivity.
  - apply (G5 demo_config); [|reflexivity].
    apply later_call. apply later_call. apply later_now.
Defined.

(** ** C10: root on a POSIX platform *)

Lemma no_sandbox_rendered self :
  sandbox self = false -> In "--no-sandbox" (assemble self).
Proof.
  intros S. rewrite assemble_parts. apply in_or_app. right.
  apply in_or_app. right. unfold switches. rewrite S. cbn [negb].
  apply in_or_app. right. now left.
Qed.

(** C10.  A Config built on a POSIX platform by a process with user id 0
    has [sandbox] false whatever was passed for it, and after any later
    calls every argument list it renders holds the no-sandbox flag. *)
Theorem root_forces_no_sandbox h a w c w1 :
  is_posix h = true -> os_getuid h = Some 0%Z ->
  Config_init h a w = (Return c, w1) ->
  sandbox c = false
  /\ forall c', later c c' ->
       forall w2 args c'' w3,
         Config_call c' w2 = (Return (args, c''), w3) ->
         In "--no-sandbox" args.
Proof.
  intros P U I.
  destruct (Config_init_default_args _ _ _ I) as (_ & _ & _ & S).
  unfold is_root in S. rewrite P, U in S. cbn in S.
  assert (S0 : sandbox c = false) by (destruct (Init.sandbox a); assumption).
  split; [assumption|].
  intros c' L w2 args c'' w3 R.
  apply Config_call_result in R. destruct R as [-> _].
  apply no_sandbox_rendered.
  destruct (later_frame L) as (S' & _). congruence.
Qed.

Lemma root_forces_no_sandbox_witness :
  sandbox root_config = false
  /\ forall c', later root_config c' ->
       forall w2 args c'' w3,
         Config_call c' w2 = (Return (args, c''), w3) ->
         In "--no-sandbox" args.
Proof.
  apply (@root_forces_no_sandbox demo_host Init.default demo_world
           root_config root_world); reflexivity.
Defined.

(** ** C5: find_chrome_executable *)

Lemma first_min_single w : first_min w [w].
Proof. exists [], []. repeat split; intros x []. Qed.

Lemma min_by_len_first_min l : forall best seen,
  first_min best seen -> first_min (min_by_len best l) (seen ++ l).
Proof.
  induction l as [|x l IH]; intros best seen F.
  - now rewrite app_nil_r.
  - cbn [min_by_len].
    replace (seen ++ x :: l) with ((seen ++ [x]) ++ l)
      by (now rewrite <- app_assoc).
    apply IH. destruct F as (l1 & l2 & -> & B & A).
    destruct (Str.len x <? Str.len best)%nat eqn:E.
    + apply Nat.ltb_lt in E. exists (l1 ++ best :: l2), [].
      split; [reflexivity|]. split; [|intros ? []].
      intros y I. apply in_app_or in I. destruct I as [I|[<-|I]].
      * specialize (B y I). lia.
      * assumption.
      * specialize (A y I). lia.
    + apply Nat.ltb_ge in E. exists l1, (l2 ++ [x]).
      split; [now rewrite <- app_assoc|]. split; [assumption|].
      intros y I. apply in_app_or in I. destruct I as [I|[<-|[]]]; auto.
Qed.

Lemma pick_winner_first_min first rest :
  exists w, pick_winner (first :: rest) = Some w /\ first_min w (first :: rest).
Proof.
  exists (min_by_len first rest). split.
  - now destruct rest.
  - apply (min_by_len_first_min rest (first_min_single first)).
Qed.

Lemma append_nonempty (a b : string) : b <> "" -> (a ++ b)%string <> "".
Proof. destruct a; simpl; [trivial | discriminate]. Qed.

Lemma join2_nonempty sep a b : b <> "" -> Str.join sep [a; b] <> "".
Proof. intros N. cbn [Str.join]. now apply append_nonempty, append_nonempty. Qed.

Lemma posix_candidates_nonempty sep (items : list string) c :
  In c (flat_map (fun item =>
                    map (fun subitem => Str.join sep [item; subitem]) posix_names)
                 items) ->
  c <> "".
Proof.
  intros I. apply in_flat_map in I. destruct I as (item & _ & I).
  apply in_map_iff in I. destruct I as (subitem & <- & S).
  apply join2_nonempty. intros ->. revert S. unfold posix_names. simpl.
  intuition discriminate.
Qed.

Lemma windows_candidates_nonempty sep (roots : list (option string)) c :
  In c (flat_map (fun item =>
                    match item with
                    | Some item =>
                        map (fun subitem =>
                               Str.join sep [item; subitem; "chrome.exe"])
                            windows_subpaths
                    | None => []
                    end) roots) ->
  c <> "".
Proof.
  intros I. apply in_flat_map in I. destruct I as ([item|] & _ & I); [|destruct I].
  apply in_map_iff in I. destruct I as (subitem & <- & _).
  cbn [Str.join]. apply append_nonempty, append_nonempty, append_nonempty.
  apply append_nonempty. discriminate.
Qed.

(** No candidate is the empty string. *)
Lemma candidates_nonempty h cands :
  candidates h = Return cands -> forall c, In c cands -> c <> "".
Proof.
  unfold candidates. destruct (is_posix h).
  - destruct (environ_get h "PATH") as [path|]; [|discriminate].
    match goal with
    | |- Return ?l = _ -> _ =>
        intros E c I; assert (E' : cands = l) by congruence;
        rewrite E' in I; clear E E'
    end.
    apply in_app_or in I. destruct I as [I|I].
    + now apply posix_candidates_nonempty in I.
    + destruct (Str.contains "darwin" (sys_platform h)); [|destruct I].
      intros ->. revert I. unfold darwin_paths. simpl. intuition discriminate.
  - match goal with
    | |- Return ?l = _ -> _ =>
        intros E c I; assert (E' : cands = l) by congruence;
        rewrite E' in I; clear E E'
    end.
    now apply windows_candidates_nonempty in I.
Qed.

Lemma valid_candidates_In h cands c :
  In c (valid_candidates h cands) -> In c cands.
Proof. unfold valid_candidates. rewrite filter_In. tauto. Qed.

Lemma first_min_In w l : first_min w l -> In w l.
Proof. intros (l1 & l2 & -> & _). apply in_or_app. right. now left. Qed.

(** C5, as the spec states it, fails when a directory of the search path
    is not written in normal form: the path returned is none of the
    surviving candidates. *)
Lemma locate_shortest_counterexample :
  match candidates trailing_slash with
  | Return cands =>
      valid_candidates trailing_slash cands
      = ["/opt/chrome//chrome"; "/usr/local/bin/google-chrome"]
      /\ find_chrome_executable trailing_slash false
         = Return (One "/opt/chrome/chrome")
      /\ ~ In "/opt/chrome/chrome" (valid_candidates trailing_slash cands)
  | Raise _ => False
  end.
Proof.
  vm_compute. repeat split. intros [H|[H|[]]]; discriminate.
Qed.

(** C5, amended.  With returnAll false, find_chrome_executable returns
    [os.path.normpath] of a surviving candidate: of the only one when one
    survives, of the first of the shortest when several do; when none
    survives it raises FileNotFoundError with a message that tells the caller
    to pass browser_executable_path. *)
Theorem find_chrome_executable_shortest h cands :
  candidates h = Return cands ->
  match valid_candidates h cands with
  | [] =>
      find_chrome_executable h false = Raise (FileNotFoundError not_found_message)
  | [only] =>
      find_chrome_executable h false = Return (One (os_path_normpath h only))
  | rv =>
      exists winner,
        find_chrome_executable h false = Return (One (os_path_normpath h winner))
        /\ first_min winner rv
  end
  /\ Str.contains "use the keyword argument 'browser_executable_path="
                  not_found_message = true.
Proof.
  intros C. split; [|reflexivity].
  pose proof (candidates_nonempty h C) as N.
  unfold find_chrome_executable. rewrite C. cbn [andb].
  destruct (valid_candidates h cands) as [|first rest] eqn:V; [reflexivity|].
  destruct (pick_winner_first_min first rest) as (w & P & F).
  assert (W : (w =? "") = false).
  { apply String.eqb_neq, N, (valid_candidates_In h). rewrite V.
    now apply first_min_In. }
  destruct rest as [|second rest].
  - cbn in P. injection P as <-. cbn. now rewrite W.
  - rewrite P, W. eauto.
Qed.

Lemma find_chrome_executable_shortest_witness :
  exists winner,
    find_chrome_executable three_browsers false
    = Return (One (posixpath.normpath winner))
    /\ first_min winner ["/opt/xy/bin/chromium"; "/usr/bin/chrome";
                         "/opt/google/google-chrome"].
Proof.
  exact (proj1 (@find_chrome_executable_shortest three_browsers
                  (match candidates three_browsers with
                   | Return cands => cands
                   | Raise _ => []
                   end) eq_refl)).
Defined.

Example three_browsers_shortest :
  map Str.len ["/opt/xy/bin/chromium"; "/usr/bin/chrome"; "/opt/google/google-chrome"]
  = [20; 15; 25]
  /\ find_chrome_executable three_browsers false = Return (One "/usr/bin/chrome").
Proof. split; reflexivity. Qed.

(** ** The world: what each call does *)

Lemma fs_add_trace w c : fs (add_trace w c) = fs w.
Proof. reflexivity. Qed.

Lemma fs_add_record w r : fs (add_record w r) = fs w.
Proof. reflexivity. Qed.

Lemma fs_set_fs w t : fs (set_fs w t) = t.
Proof. reflexivity. Qed.

Lemma lookup_add_trace path w c : lookup path (add_trace w c) = lookup path w.
Proof. reflexivity. Qed.

Lemma Path_stat_run p w :
  Path_stat p w
  = (Return (lookup (Path_str p) w), add_trace w (Sys_stat (Path_str p))).
Proof. reflexivity. Qed.

Lemma Path_exists_run p w :
  Path_exists p w
  = (Return (match lookup (Path_str p) w with Some _ => true | None => false end),
     add_trace w (Sys_stat (Path_str p))).
Proof. reflexivity. Qed.

Lemma Path_is_file_run p w :
  Path_is_file p w
  = (Return (match lookup (Path_str p) w with
             | Some (Dir _) | None => false
             | Some _ => true
             end),
     add_trace w (Sys_stat (Path_str p))).
Proof. reflexivity. Qed.

Lemma Path_is_dir_run p w :
  Path_is_dir p w
  = (Return (match lookup (Path_str p) w with
             | Some (Dir _) => true
             | _ => false
             end),
     add_trace w (Sys_stat (Path_str p))).
Proof. reflexivity. Qed.

Lemma Path_rglob_manifest_run p w :
  Path_rglob_manifest p w
  = (Return (match lookup (Path_str p) w with
             | Some n => rglob_tree n p
             | None => []
             end),
     add_trace w (Sys_scandir (Path_str p))).
Proof. reflexivity. Qed.

Lemma os_path_exists_run path w :
  os_path_exists path w
  = (Return (if path =? "" then false
             else match lookup path w with Some _ => true | None => false end),
     add_trace w (Sys_stat path)).
Proof. reflexivity. Qed.

Lemma os_makedirs_run path w :
  os_makedirs path w
  = (fst (makedirs path (fs w)),
     set_fs (add_trace w (Sys_makedirs path)) (snd (makedirs path (fs w)))).
Proof.
  unfold os_makedirs, bind, sys. rewrite fs_add_trace.
  now destruct (makedirs path (fs w)).
Qed.

Lemma _sync_read_prefs_run path w :
  _sync_read_prefs path w
  = (match lookup path w with
     | None => Raise (FileNotFoundError "No such file or directory")
     | Some (Dir _) => Raise IsADirectoryError
     | Some (JsonFile doc) => Return doc
     | Some (ZipFile _) => Raise UnicodeDecodeError
     | Some _ => Raise JSONDecodeError
     end,
     add_trace w (Sys_open_r path)).
Proof.
  unfold _sync_read_prefs, bind, sys. rewrite lookup_add_trace.
  destruct (lookup path w) as [[]|]; reflexivity.
Qed.

Lemma _sync_write_prefs_run prefs path w :
  _sync_write_prefs prefs path w
  = let w1 := add_trace w (Sys_open_w path) in
    match create true path
                 (if serialisable (VDict prefs) then JsonFile (VDict prefs)
                  else PartialJson (VDict prefs)) (fs w) with
    | Return t =>
        (if serialisable (VDict prefs) then Return tt
         else Raise (TypeError "Object is not JSON serializable"),
         set_fs w1 t)
    | Raise e => (Raise e, w1)
    end.
Proof.
  unfold _sync_write_prefs, bind, sys. rewrite fs_add_trace.
  destruct (serialisable (VDict prefs));
    destruct (create true path _ (fs w)); reflexivity.
Qed.

(** ** C7: add_extension *)

Lemma fold_parent_last items path :
  fold_left (fun _ item => Path_parent item) items path
  = last_or (map Path_parent items) path.
Proof.
  unfold last_or. revert path.
  induction items as [|item items IH] using rev_ind; intros path.
  - reflexivity.
  - rewrite fold_left_app, map_app, rev_app_distr. reflexivity.
Qed.

(** C7.  The loop over the matches has no [break]: every match overwrites
    [path], and what is appended is the parent of the last one.  For the
    folder [/ext], which holds its manifest at the top as the docstring
    asks and another one in [vendor], the first match is the manifest of
    [/ext], yet add_extension appends [/ext/vendor].  The other half of C7
    holds: for a path that does not exist, also one that steps through a
    missing directory, add_extension raises FileNotFoundError and the
    instance is as it was. *)
Theorem add_extension_takes_last_match :
  match Path_rglob_manifest (Path_of "/ext") extension_world with
  | (Return (first :: _), _) =>
      Path_str (Path_parent first) = "/ext"
      /\ match add_extension root_config "/ext" extension_world with
         | (Return c, _) =>
             _extensions c = [PPath (mkPath "/" ["ext"; "vendor"])]
             /\ _extensions c <> [PPath (Path_parent first)]
         | _ => False
         end
  | _ => False
  end
  /\ fst (add_extension root_config "/nowhere/../ext" extension_world)
     = Raise (FileNotFoundError "could not find anything here: /nowhere/../ext")
  /\ fst (run (Call_add_extension "/nowhere/../ext") root_config extension_world)
     = root_config.
Proof. vm_compute. repeat split. discriminate. Qed.

(** What add_extension does with a directory and with a path that leads
    nowhere, in general: it appends the parent of the last entry named
    manifest.* that the recursive search yields, the directory itself when
    the search yields none; for a path that does not exist it raises
    FileNotFoundError and the extension list stays as it was.  Neither case
    changes the file system. *)
Lemma add_extension_resolves :
  (forall self extension_path w entries,
      let path := Path_of extension_path in
      lookup (Path_str path) w = Some (Dir entries) ->
      exists w',
        add_extension self extension_path w
        = (Return (append_extension self
                     (PPath (last_or (map Path_parent
                                          (rglob_tree (Dir entries) path))
                                     path))), w')
        /\ fs w' = fs w)
  /\ (forall self extension_path w,
        let path := Path_of extension_path in
        lookup (Path_str path) w = None ->
        exists w',
          add_extension self extension_path w
          = (Raise (FileNotFoundError
                      ("could not find anything here: " ++ Path_str path)), w')
          /\ fs w' = fs w
          /\ fst (run (Call_add_extension extension_path) self w) = self).
Proof.
  split.
  - intros self extension_path w entries path L. subst path.
    unfold add_extension, bind.
    rewrite Path_exists_run, L. cbn [negb].
    rewrite Path_is_file_run, lookup_add_trace, L.
    rewrite Path_is_dir_run, !lookup_add_trace, L.
    rewrite Path_rglob_manifest_run, !lookup_add_trace, L.
    rewrite fold_parent_last. eexists. split; reflexivity.
  - intros self extension_path w path L. subst path.
    assert (A : exists w',
               add_extension self extension_path w
               = (Raise (FileNotFoundError
                           ("could not find anything here: "
                            ++ Path_str (Path_of extension_path))), w')
               /\ fs w' = fs w).
    { unfold add_extension, bind. rewrite Path_exists_run, L. cbn [negb].
      eexists. split; reflexivity. }
    destruct A as (w' & A & F). exists w'. repeat split; try assumption.
    cbn [run]. now rewrite A.
Qed.

(** A path through a directory that is missing leads nowhere, whatever
    follows the step back. *)
Example lookup_through_missing_directory :
  lookup "/nowhere/../ext" extension_world = None
  /\ lookup "/ext/../ext" extension_world = lookup "/ext" extension_world
  /\ lookup "/ext/manifest.json/.." extension_world = None
  /\ lookup "/ext/manifest.json/" extension_world = None
  /\ lookup "/ext//vendor/./manifest.json" extension_world
     = Some (JsonFile (VDict [])).
Proof. repeat split. Qed.

(** ** Paths of the preference file *)

Lemma append_assoc (a b c : string) : ((a ++ b) ++ c = a ++ (b ++ c))%string.
Proof. induction a as [|x a IH]; simpl; [reflexivity | now rewrite IH]. Qed.

Lemma split_app_sep c a b :
  Str.split c (a ++ String c b) = Str.split c a ++ Str.split c b.
Proof.
  induction a as [|x a IH]; simpl.
  - unfold Str.eqb_char. now rewrite Ascii.eqb_refl.
  - destruct (Str.eqb_char x c); rewrite IH; [reflexivity|].
    destruct (Str.split c a) as [|p ps] eqn:S; [now apply split_nonempty in S|].
    reflexivity.
Qed.

Lemma endswith_char_app c (x y : string) :
  y <> "" -> Str.endswith_char c (x ++ y) = Str.endswith_char c y.
Proof.
  intros N. induction x as [|a x IH]; [reflexivity|].
  simpl. destruct (x ++ y)%string eqn:E; [|assumption].
  destruct x; simpl in E; [contradiction | discriminate].
Qed.

Lemma endswith_char_split c s :
  Str.endswith_char c s = true -> exists u, s = (u ++ String c "")%string.
Proof.
  induction s as [|a s IH]; simpl; [discriminate|].
  destruct s as [|b s].
  - intros E. apply eqb_char_eq in E. subst a. now exists "".
  - intros E. destruct (IH E) as (u & ->). now exists (String a u).
Qed.

Lemma has_char_app c (x y : string) :
  Str.has_char c (x ++ y) = Str.has_char c x || Str.has_char c y.
Proof.
  induction x as [|a x IH]; simpl; [reflexivity|].
  rewrite IH. now rewrite orb_assoc.
Qed.

Lemma head_of_app_sep (x n : string) :
  Str.has_char posixpath.sep n = false ->
  posixpath.head_of (x ++ String posixpath.sep n) = (x ++ "/")%string.
Proof.
  intros N. induction x as [|a x IH]; simpl.
  - now rewrite N.
  - rewrite has_char_app. simpl.
    replace (Str.eqb_char posixpath.sep posixpath.sep) with true by reflexivity.
    rewrite orb_true_r. simpl. now rewrite IH.
Qed.

Lemma all_sep_app (x y : string) :
  posixpath.all_sep (x ++ y) = posixpath.all_sep x && posixpath.all_sep y.
Proof.
  induction x as [|a x IH]; simpl; [reflexivity|].
  rewrite IH. now rewrite andb_assoc.
Qed.

Lemma rstrip_app c (x y : string) :
  Str.rstrip c y <> "" -> Str.rstrip c (x ++ y) = (x ++ Str.rstrip c y)%string.
Proof.
  intros N. induction x as [|a x IH]; [reflexivity|].
  simpl. rewrite IH. destruct (x ++ Str.rstrip c y)%string eqn:E; [|reflexivity].
  destruct x; simpl in E; [contradiction | discriminate].
Qed.

Lemma default_dir_tail udd :
  exists x, default_dir udd = (x ++ "Default")%string.
Proof.
  unfold default_dir.
  destruct ((udd =? "") || Str.endswith_char posixpath.sep udd).
  - now exists udd.
  - exists (udd ++ "/")%string. now rewrite append_assoc.
Qed.

Lemma prefs_path_eq udd :
  posixpath.join udd ["Default"; "Preferences"]
  = (default_dir udd ++ "/Preferences")%string.
Proof.
  cbn [posixpath.join Str.startswith Str.eqb_char Ascii.eqb Bool.eqb andb].
  change (if (udd =? "") || Str.endswith_char posixpath.sep udd
          then (udd ++ "Default")%string else (udd ++ "/" ++ "Default")%string)
    with (default_dir udd).
  destruct (default_dir_tail udd) as (x & ->).
  rewrite endswith_char_app by discriminate. cbn [Str.endswith_char Str.eqb_char].
  replace ((x ++ "Default")%string =? "") with false.
  - reflexivity.
  - symmetry. apply String.eqb_neq. apply append_nonempty. discriminate.
Qed.

Lemma prefs_dir_eq udd :
  posixpath.dirname (posixpath.join udd ["Default"; "Preferences"])
  = default_dir udd.
Proof.
  rewrite prefs_path_eq. unfold posixpath.dirname.
  change (default_dir udd ++ "/Preferences")%string
    with (default_dir udd ++ String posixpath.sep "Preferences")%string.
  rewrite head_of_app_sep by reflexivity.
  destruct (default_dir_tail udd) as (x & ->).
  rewrite !append_assoc, all_sep_app.
  replace (posixpath.all_sep ("Default" ++ "/")) with false by reflexivity.
  rewrite andb_false_r.
  replace ((x ++ "Default" ++ "/")%string =? "") with false
    by (symmetry; apply String.eqb_neq, append_nonempty; discriminate).
  cbn [negb andb]. now rewrite rstrip_app by discriminate.
Qed.

(** The components of the paths of a profile [udd]: those of the directory
    [Default] as [os.path.join] writes it, and those of
    [<userDataDir>/Default/Preferences].  They differ by an empty component
    at most. *)
Lemma split_default_dir udd :
  exists prefix stay,
    (stay = [] \/ stay = [""])
    /\ Str.split posixpath.sep udd = prefix ++ stay
    /\ Str.split posixpath.sep (default_dir udd) = prefix ++ ["Default"]
    /\ Str.split posixpath.sep (udd ++ "/Default/Preferences")
       = prefix ++ stay ++ ["Default"; "Preferences"].
Proof.
  change (udd ++ "/Default/Preferences")%string
    with (udd ++ String posixpath.sep "Default/Preferences")%string.
  rewrite split_app_sep.
  change (Str.split posixpath.sep "Default/Preferences")
    with ["Default"; "Preferences"].
  unfold default_dir. destruct (udd =? "") eqn:E.
  - apply String.eqb_eq in E. subst. exists [], [""]. cbn. auto.
  - cbn [orb]. destruct (Str.endswith_char posixpath.sep udd) eqn:S.
    + apply endswith_char_split in S. destruct S as (u & ->).
      rewrite append_assoc.
      change (String posixpath.sep "" ++ "Default")%string
        with (String posixpath.sep "Default").
      rewrite !split_app_sep. exists (Str.split posixpath.sep u), [""].
      cbn [Str.split]. rewrite <- !app_assoc. auto.
    + change (udd ++ "/Default")%string
        with (udd ++ String posixpath.sep "Default")%string.
      rewrite split_app_sep. exists (Str.split posixpath.sep udd), [].
      rewrite app_nil_r. auto.
Qed.

(** The preference file lies in the directory [dirname prefs_path], under
    the name [Preferences]. *)
Lemma split_prefs_path udd :
  let prefs_path := posixpath.join udd ["Default"; "Preferences"] in
  Str.split posixpath.sep prefs_path
  = Str.split posixpath.sep (posixpath.dirname prefs_path) ++ ["Preferences"]
  /\ (prefs_path =? "") = false
  /\ (posixpath.dirname prefs_path =? "") = false.
Proof.
  cbv zeta. rewrite prefs_dir_eq, prefs_path_eq.
  change (default_dir udd ++ "/Preferences")%string
    with (default_dir udd ++ String posixpath.sep "Preferences")%string.
  rewrite split_app_sep. split; [reflexivity|].
  split; apply String.eqb_neq.
  - apply append_nonempty. discriminate.
  - destruct (default_dir_tail udd) as (x & ->). apply append_nonempty.
    discriminate.
Qed.

(** ** The tree: makedirs, open, lookup *)

Section TreeFacts.
Variable V : Type.
Implicit Types (d : list (string * V)) (k : string) (v : V).

Lemma dict_get_app_absent k v d :
  dict_get k d = None -> dict_get k (d ++ [(k, v)]) = Some v.
Proof.
  induction d as [|[k' w] d IH]; simpl.
  - now rewrite String.eqb_refl.
  - destruct (String.eqb k' k); [discriminate | assumption].
Qed.

Lemma dict_get_app_present k d v tail :
  dict_get k d = Some v -> dict_get k (d ++ tail) = Some v.
Proof.
  induction d as [|[k' w] d IH]; simpl; [discriminate|].
  destruct (String.eqb k' k); auto.
Qed.

Lemma dict_get_set_keeps k k' v d :
  dict_get k' d <> None -> dict_get k' (dict_set k v d) <> None.
Proof.
  destruct (String.eqb_spec k k') as [<-|N].
  - rewrite dict_get_set_same. discriminate.
  - now rewrite dict_get_set_other.
Qed.

Lemma dict_get_app_keeps k d tail :
  dict_get k d <> None -> dict_get k (d ++ tail) <> None.
Proof.
  destruct (dict_get k d) as [v|] eqn:G; [|contradiction].
  rewrite (dict_get_app_present _ _ tail G). discriminate.
Qed.

End TreeFacts.

Lemma resolve_app p : forall q n,
  resolve (p ++ q) n
  = match resolve p n with Some m => resolve q m | None => None end.
Proof.
  induction p as [|c p IH]; intros q n; [reflexivity|].
  cbn [app resolve]. destruct n as [entries| | | |]; try reflexivity.
  destruct (dict_get c entries); [apply IH | reflexivity].
Qed.

Lemma resolve_snoc p c n :
  resolve (p ++ [c]) n
  = match resolve p n with
    | Some (Dir entries) => dict_get c entries
    | _ => None
    end.
Proof.
  rewrite resolve_app.
  destruct (resolve p n) as [[entries| | | |]|]; try reflexivity.
  cbn. now destruct (dict_get c entries).
Qed.

Lemma dir_at_parent t pos : dir_at t pos -> dir_at t (removelast pos).
Proof.
  unfold dir_at. induction pos as [|c pos _] using rev_ind; [auto|].
  rewrite removelast_last, resolve_snoc. intros [entries R].
  destruct (resolve pos t) as [[entries'| | | |]|]; try discriminate. eauto.
Qed.

(** ** The tree: what [place] leaves as it was *)

Lemma place_step exists_ok c c' rest new entries :
  place exists_ok (c :: c' :: rest) new (Dir entries)
  = match dict_get c entries with
    | Some child =>
        match place exists_ok (c' :: rest) new child with
        | Return child' => Return (Dir (dict_set c child' entries))
        | Raise e => Raise e
        end
    | None => Raise (FileNotFoundError "No such file or directory")
    end.
Proof. reflexivity. Qed.

Lemma place_Dir exists_ok comps new n t :
  place exists_ok comps new n = Return t -> is_dir_node n = true.
Proof. destruct n, comps; simpl; congruence. Qed.

(** What was put at a path is found there. *)
Lemma resolve_place exists_ok new comps : forall n t,
  place exists_ok comps new n = Return t -> resolve comps t = Some new.
Proof.
  induction comps as [|c rest IH]; intros n t P;
    pose proof (place_Dir _ _ _ _ P) as D;
    destruct n as [entries| | | |]; try discriminate.
  destruct rest as [|c' rest].
  - cbn [place] in P. cbn [resolve].
    destruct (dict_get c entries) as [old|] eqn:G.
    + destruct old, exists_ok; try discriminate; injection P as <-;
        now rewrite dict_get_set_same.
    + injection P as <-. now rewrite (dict_get_app_absent _ _ _ G).
  - rewrite place_step in P.
    destruct (dict_get c entries) as [child|] eqn:G; [|discriminate].
    destruct (place exists_ok (c' :: rest) new child) as [child'|e] eqn:C;
      [|discriminate].
    injection P as <-. cbn [resolve]. rewrite dict_get_set_same.
    apply (IH _ _ C).
Qed.


(** A file that is there can be opened for writing. *)
Lemma place_over_file new name comps : forall t x,
  resolve (comps ++ [name]) t = Some x -> is_dir_node x = false ->
  exists t', place true (comps ++ [name]) new t = Return t'.
Proof.
  induction comps as [|c rest IH]; intros t x R F;
    destruct t as [entries| | | |]; try discriminate.
  - cbn in *. destruct (dict_get name entries) as [old|]; [|discriminate].
    injection R as ->. destruct x; try discriminate; eauto.
  - cbn [app resolve] in R.
    destruct (dict_get c entries) as [child|] eqn:G; [|discriminate].
    destruct (IH _ _ R F) as (t' & P).
    cbn [app]. destruct (rest ++ [name]) as [|c' r] eqn:E; [now destruct rest|].
    rewrite place_step, G, P. eauto.
Qed.

Lemma place_raises exists_ok new comps : forall n e,
  place exists_ok comps new n = Raise e ->
  match e with
  | IsADirectoryError | FileExistsError | NotADirectoryError
  | FileNotFoundError _ => True
  | _ => False
  end.
Proof.
  induction comps as [|c rest IH]; intros n e P.
  - destruct n, exists_ok; cbn in P; injection P as <-; exact I.
  - destruct n as [entries| | | |]; try (cbn in P; injection P as <-; exact I).
    destruct rest as [|c' rest].
    + cbn [place] in P. destruct (dict_get c entries) as [[]|];
        destruct exists_ok; try discriminate; injection P as <-; exact I.
    + rewrite place_step in P.
      destruct (dict_get c entries) as [child|]; [|injection P as <-; exact I].
      destruct (place exists_ok (c' :: rest) new child) as [child'|e'] eqn:C;
        [discriminate|].
      injection P as <-. apply (IH _ _ C).
Qed.

(** Creating or replacing an entry leaves every directory a directory,
    with the names it had. *)
Lemma place_keeps_dirs exists_ok new comps : forall t t',
  place exists_ok comps new t = Return t' -> keeps_dirs t t'.
Proof.
  induction comps as [|c rest IH]; intros t t' P;
    pose proof (place_Dir _ _ _ _ P) as D;
    destruct t as [entries| | | |]; try discriminate.
  intros q es R. destruct rest as [|c' rest].
  - cbn [place] in P.
    assert (E : exists entries',
               t' = Dir entries'
               /\ (forall k, dict_get k entries <> None ->
                             dict_get k entries' <> None)
               /\ (forall k child, dict_get k entries = Some child ->
                                   is_dir_node child = true ->
                                   dict_get k entries' = Some child)).
    { destruct (dict_get c entries) as [old|] eqn:G.
      - destruct old, exists_ok; try discriminate; injection P as <-;
          (eexists; split; [reflexivity|]; split;
           [intros k; apply dict_get_set_keeps|]);
          intros k child K Dc;
          (destruct (String.eqb_spec c k) as [<-|N];
           [rewrite G in K; injection K as <-; discriminate
           | now rewrite dict_get_set_other]).
      - injection P as <-. eexists. split; [reflexivity|]. split.
        + intros k. apply dict_get_app_keeps.
        + intros k child K _. now apply dict_get_app_present. }
    destruct E as (entries' & -> & K1 & K2).
    destruct q as [|c0 r0].
    + cbn in R. injection R as <-. exists entries'. split; [reflexivity | exact K1].
    + cbn [resolve] in R |- *.
      destruct (dict_get c0 entries) as [child0|] eqn:G0; [|discriminate].
      assert (Dc : is_dir_node child0 = true).
      { destruct r0; cbn in R; [injection R as ->; reflexivity|].
        destruct child0; try discriminate. reflexivity. }
      rewrite (K2 _ _ G0 Dc). exists es. split; [exact R | auto].
  - rewrite place_step in P.
    destruct (dict_get c entries) as [child|] eqn:G; [|discriminate].
    destruct (place exists_ok (c' :: rest) new child) as [child'|e] eqn:C;
      [|discriminate].
    injection P as <-.
    destruct q as [|c0 r0].
    + cbn in R. injection R as <-. eexists. split; [reflexivity|].
      intros k. apply dict_get_set_keeps.
    + cbn [resolve] in R |- *.
      destruct (String.eqb_spec c c0) as [<-|N].
      * rewrite dict_get_set_same. rewrite G in R. apply (IH _ _ C _ _ R).
      * rewrite dict_get_set_other by assumption.
        destruct (dict_get c0 entries) as [child0|]; [|discriminate].
        exists es. split; [exact R | auto].
Qed.

(** Making a directory leaves every file where it is. *)
Lemma place_keeps_files new comps : forall t t',
  place false comps new t = Return t' -> keeps_files t t'.
Proof.
  induction comps as [|c rest IH]; intros t t' P q x R F;
    pose proof (place_Dir _ _ _ _ P) as D;
    destruct t as [entries| | | |]; try discriminate.
  destruct q as [|c0 r0]; [cbn in R; injection R as <-; discriminate|].
  cbn [resolve] in R.
  destruct (dict_get c0 entries) as [child0|] eqn:G0; [|discriminate].
  destruct rest as [|c' rest].
  - cbn [place] in P. destruct (dict_get c entries) as [[]|]; try discriminate.
    injection P as <-. cbn [resolve].
    now rewrite (dict_get_app_present _ _ _ G0).
  - rewrite place_step in P.
    destruct (dict_get c entries) as [child|] eqn:G; [|discriminate].
    destruct (place false (c' :: rest) new child) as [child'|e] eqn:C;
      [|discriminate].
    injection P as <-. cbn [resolve].
    destruct (String.eqb_spec c c0) as [<-|N].
    + rewrite dict_get_set_same. rewrite G in G0. injection G0 as <-.
      apply (IH _ _ C _ _ R F).
    + rewrite dict_get_set_other by assumption. now rewrite G0.
Qed.

Lemma keeps_dirs_refl t : keeps_dirs t t.
Proof. intros pos entries R. eauto. Qed.

Lemma keeps_dirs_trans t1 t2 t3 :
  keeps_dirs t1 t2 -> keeps_dirs t2 t3 -> keeps_dirs t1 t3.
Proof.
  intros A B pos entries R.
  destruct (A _ _ R) as (e2 & R2 & K2). destruct (B _ _ R2) as (e3 & R3 & K3).
  eauto.
Qed.

Lemma keeps_dirs_dir_at t t' pos : keeps_dirs t t' -> dir_at t pos -> dir_at t' pos.
Proof. intros K [entries R]. destruct (K _ _ R) as (e' & R' & _). now exists e'. Qed.

(** ** The tree: walking a path *)

Lemma step_dir t pos c p : step t pos c = Return p -> dir_at t pos.
Proof.
  unfold step, dir_at.
  destruct (resolve pos t) as [[entries| | | |]|]; try discriminate. eauto.
Qed.

Lemma step_plain t pos c :
  plain c = true ->
  step t pos c
  = match resolve pos t with
    | Some (Dir entries) =>
        match dict_get c entries with
        | Some _ => Return (pos ++ [c])
        | None => Raise (FileNotFoundError "No such file or directory")
        end
    | _ => Raise NotADirectoryError
    end.
Proof.
  unfold plain, step. intros P.
  destruct (resolve pos t) as [[entries| | | |]|]; try reflexivity.
  destruct (c =? ""), (c =? "."), (c =? ".."); try discriminate. reflexivity.
Qed.

Lemma step_stay t pos : dir_at t pos -> step t pos "" = Return pos.
Proof. intros [entries R]. unfold step. now rewrite R. Qed.

Lemma step_raises t pos c e :
  step t pos c = Raise e ->
  e = FileNotFoundError "No such file or directory" \/ e = NotADirectoryError.
Proof.
  unfold step. destruct (resolve pos t) as [[entries| | | |]|];
    try (intros [= <-]; now right).
  destruct ((c =? "") || (c =? ".")); [discriminate|].
  destruct (c =? ".."); [discriminate|].
  destruct (dict_get c entries); [discriminate|]. intros [= <-]. now left.
Qed.

Lemma step_keeps t t' pos c p :
  keeps_dirs t t' -> step t pos c = Return p -> step t' pos c = Return p.
Proof.
  intros K. unfold step.
  destruct (resolve pos t) as [[entries| | | |]|] eqn:R; try discriminate.
  destruct (K _ _ R) as (entries' & -> & N).
  destruct ((c =? "") || (c =? ".")); [auto|].
  destruct (c =? ".."); [auto|].
  destruct (dict_get c entries) as [x|] eqn:G; [|discriminate].
  specialize (N c). rewrite G in N.
  destruct (dict_get c entries'); [auto|]. now destruct N.
Qed.

Lemma walk_app t a : forall b pos,
  walk t (a ++ b) pos
  = match walk t a pos with
    | Return p => walk t b p
    | Raise e => Raise e
    end.
Proof.
  induction a as [|c a IH]; intros b pos; [reflexivity|].
  cbn [app walk]. destruct (step t pos c); [apply IH | reflexivity].
Qed.

Lemma walk_keeps t t' comps : forall pos p,
  keeps_dirs t t' -> walk t comps pos = Return p -> walk t' comps pos = Return p.
Proof.
  induction comps as [|c comps IH]; intros pos p K; [auto|].
  cbn [walk]. destruct (step t pos c) as [pos'|e] eqn:S; [|discriminate].
  rewrite (step_keeps _ _ K S). now apply IH.
Qed.

Lemma walk_raises t comps : forall pos e,
  walk t comps pos = Raise e ->
  e = FileNotFoundError "No such file or directory" \/ e = NotADirectoryError.
Proof.
  induction comps as [|c comps IH]; intros pos e; [discriminate|].
  cbn [walk]. destruct (step t pos c) as [pos'|e'] eqn:S.
  - apply IH.
  - intros [= <-]. now apply step_raises in S.
Qed.

(** A walk that ends in a directory started in one. *)
Lemma walk_start_dir t comps pos p :
  walk t comps pos = Return p -> dir_at t p -> dir_at t pos.
Proof.
  destruct comps as [|c comps]; cbn [walk].
  - now intros [= ->].
  - destruct (step t pos c) as [pos'|e] eqn:S; [|discriminate].
    intros _ _. now apply step_dir in S.
Qed.


(** ** The tree: lookup and creation by path *)

Lemma node_at_child t path comps name pos :
  (path =? "") = false ->
  Str.split posixpath.sep path = comps ++ [name] ->
  plain name = true ->
  walk t comps [] = Return pos ->
  node_at t path = resolve (pos ++ [name]) t.
Proof.
  intros N S P W. unfold node_at, locate. rewrite N, S, walk_app, W.
  cbn [walk]. rewrite step_plain by exact P. rewrite resolve_snoc.
  destruct (resolve pos t) as [[entries| | | |]|] eqn:R; try reflexivity.
  destruct (dict_get name entries) eqn:G; [|reflexivity].
  now rewrite resolve_snoc, R.
Qed.

Lemma node_at_parent t path comps name x :
  (path =? "") = false ->
  Str.split posixpath.sep path = comps ++ [name] ->
  plain name = true ->
  node_at t path = Some x ->
  exists pos, walk t comps [] = Return pos
              /\ dir_at t pos
              /\ resolve (pos ++ [name]) t = Some x.
Proof.
  intros N S P A.
  destruct (walk t comps []) as [pos|e] eqn:W.
  - erewrite node_at_child in A by eassumption. exists pos.
    split; [reflexivity|]. split; [|exact A].
    rewrite resolve_snoc in A.
    destruct (resolve pos t) as [[entries| | | |]|] eqn:R; try discriminate.
    now exists entries.
  - unfold node_at, locate in A. now rewrite N, S, walk_app, W in A.
Qed.

Lemma create_child exists_ok t path comps name pos new :
  (path =? "") = false ->
  Str.split posixpath.sep path = comps ++ [name] ->
  plain name = true ->
  walk t comps [] = Return pos ->
  create exists_ok path new t = place exists_ok (pos ++ [name]) new t.
Proof.
  intros N S P W. unfold create. rewrite N, S. cbv zeta.
  rewrite removelast_last, last_last, W.
  unfold plain in P. apply negb_true_iff in P. now rewrite P.
Qed.

(** What a successful [create] did: it placed [new] under a plain name in
    the directory the rest of the path leads to. *)
Lemma create_Return exists_ok path new t t' :
  create exists_ok path new t = Return t' ->
  exists comps name pos,
    (path =? "") = false
    /\ Str.split posixpath.sep path = comps ++ [name]
    /\ plain name = true
    /\ walk t comps [] = Return pos
    /\ place exists_ok (pos ++ [name]) new t = Return t'.
Proof.
  unfold create. destruct (path =? "") eqn:N; [discriminate|]. cbv zeta.
  set (comps := Str.split posixpath.sep path).
  destruct (walk t (removelast comps) []) as [pos|e] eqn:W; [|discriminate].
  destruct ((last comps "" =? "") || (last comps "" =? ".")
            || (last comps "" =? "..")) eqn:P.
  - destruct (resolve pos t) as [[]|]; discriminate.
  - intros C. exists (removelast comps), (last comps ""), pos.
    repeat split; try assumption.
    + apply app_removelast_last. apply split_nonempty.
    + unfold plain. now rewrite P.
Qed.

Lemma create_keeps_dirs exists_ok path new t t' :
  create exists_ok path new t = Return t' -> keeps_dirs t t'.
Proof.
  intros C. apply create_Return in C.
  destruct C as (comps & name & pos & _ & _ & _ & _ & P).
  exact (place_keeps_dirs _ _ _ _ P).
Qed.

(** What was created at a path is found there. *)
Lemma node_at_created exists_ok path new t t' :
  create exists_ok path new t = Return t' -> node_at t' path = Some new.
Proof.
  intros C. apply create_Return in C.
  destruct C as (comps & name & pos & N & S & P & W & C).
  erewrite node_at_child; try eassumption.
  - exact (resolve_place _ _ _ _ C).
  - eapply walk_keeps; [|eassumption]. eapply place_keeps_dirs. eassumption.
Qed.

Lemma create_raises exists_ok path new t e :
  create exists_ok path new t = Raise e ->
  match e with
  | IsADirectoryError | FileExistsError | NotADirectoryError
  | FileNotFoundError _ => True
  | _ => False
  end.
Proof.
  unfold create. destruct (path =? ""); [intros [= <-]; exact I|]. cbv zeta.
  destruct (walk t _ []) as [pos|e'] eqn:W.
  - destruct (_ || _).
    + destruct (resolve pos t) as [[]|], exists_ok; intros [= <-]; exact I.
    + apply place_raises.
  - intros [= <-]. apply walk_raises in W. now destruct W as [-> | ->].
Qed.

(** A file that other calls left where it was, in directories that are
    still there, is found by the same path. *)
Lemma node_at_kept t t' path x :
  keeps_dirs t t' -> keeps_files t t' ->
  node_at t path = Some x -> is_dir_node x = false -> node_at t' path = Some x.
Proof.
  intros KD KF. unfold node_at, locate. destruct (path =? ""); [discriminate|].
  destruct (walk t _ []) as [pos|e] eqn:W; [|discriminate].
  rewrite (walk_keeps _ _ KD W). apply KF.
Qed.

(** ** The tree: makedirs *)

Lemma makedirs_walk_keeps comps : forall pos t o t',
  makedirs_walk comps pos t = (o, t') -> keeps_dirs t t' /\ keeps_files t t'.
Proof.
  induction comps as [|c comps IH]; intros pos t o t'; cbn [makedirs_walk].
  - intros [= <- <-]. split; [apply keeps_dirs_refl | intros q x R _; exact R].
  - assert (Same : keeps_dirs t t /\ keeps_files t t)
      by (split; [apply keeps_dirs_refl | intros q x R _; exact R]).
    destruct (resolve pos t) as [[entries| | | |]|];
      try (intros [= <- <-]; exact Same).
    destruct ((c =? "") || (c =? ".")); [apply IH|].
    destruct (c =? ".."); [apply IH|].
    destruct (dict_get c entries) as [[]|];
      try (intros [= <- <-]; exact Same); [apply IH|].
    destruct (place false (pos ++ [c]) (Dir []) t) as [t1|e] eqn:P;
      [|intros [= <- <-]; exact Same].
    intros M. apply IH in M. destruct M as [KD KF]. split.
    + exact (keeps_dirs_trans (place_keeps_dirs _ _ _ _ P) KD).
    + intros q x R F. apply KF; [|exact F].
      eapply place_keeps_files; eassumption.
Qed.

(** Where makedirs returned, its path leads to a directory. *)
Lemma makedirs_walk_made comps : forall pos t t1,
  makedirs_walk comps pos t = (Return tt, t1) -> dir_at t pos ->
  exists p, walk t1 comps pos = Return p /\ dir_at t1 p.
Proof.
  induction comps as [|c comps IH]; intros pos t t1; cbn [makedirs_walk walk].
  - intros [= <-] D. eauto.
  - intros M D. pose proof (makedirs_walk_keeps (c :: comps) pos t M) as [K _].
    pose proof (keeps_dirs_dir_at K D) as [entries1 R1].
    cbn [makedirs_walk] in M. destruct D as [entries R]. rewrite R in M.
    unfold step. rewrite R1.
    destruct ((c =? "") || (c =? ".")).
    { apply (IH _ _ _ M). now exists entries. }
    destruct (c =? "..").
    { apply (IH _ _ _ M). apply dir_at_parent. now exists entries. }
    assert (Step : forall t2, makedirs_walk comps (pos ++ [c]) t2 = (Return tt, t1) ->
                              dir_at t2 (pos ++ [c]) ->
                              dict_get c entries1 <> None
                              /\ exists p, walk t1 comps (pos ++ [c]) = Return p
                                           /\ dir_at t1 p).
    { intros t2 M2 D2.
      pose proof (makedirs_walk_keeps _ _ _ M2) as [K2 _].
      pose proof (keeps_dirs_dir_at K2 D2) as [e2 R2].
      rewrite resolve_snoc, R1 in R2. split.
      - destruct (dict_get c entries1); discriminate.
      - now apply (IH _ _ _ M2). }
    assert (Done : forall t2, makedirs_walk comps (pos ++ [c]) t2 = (Return tt, t1) ->
                              dir_at t2 (pos ++ [c]) ->
                              exists p,
                                match
                                  match dict_get c entries1 with
                                  | Some _ => Return (pos ++ [c])
                                  | None => Raise (FileNotFoundError
                                                     "No such file or directory")
                                  end
                                with
                                | Return pos' => walk t1 comps pos'
                                | Raise e => Raise e
                                end = Return p /\ dir_at t1 p).
    { intros t2 M2 D2. destruct (Step _ M2 D2) as (N & W).
      destruct (dict_get c entries1); [exact W | contradiction]. }
    destruct (dict_get c entries) as [[sub| | | |]|] eqn:G; try discriminate.
    + apply (Done _ M). exists sub. now rewrite resolve_snoc, R.
    + destruct (place false (pos ++ [c]) (Dir []) t) as [t2|e] eqn:P;
        [|discriminate].
      apply (Done _ M). exists []. exact (resolve_place _ _ _ _ P).
Qed.

(** Along directories that are there makedirs walks and makes nothing. *)
Lemma makedirs_walk_existing t a : forall b pos p,
  walk t a pos = Return p -> dir_at t p ->
  makedirs_walk (a ++ b) pos t = makedirs_walk b p t.
Proof.
  induction a as [|c a IH]; intros b pos p; cbn [walk app].
  - now intros [= ->].
  - destruct (step t pos c) as [pos'|e] eqn:S; [|discriminate].
    intros W D. pose proof (walk_start_dir _ _ W D) as D'.
    cbn [makedirs_walk]. unfold step in S.
    destruct (resolve pos t) as [[entries| | | |]|] eqn:R; try discriminate.
    destruct ((c =? "") || (c =? ".")).
    { injection S as <-. now apply IH. }
    destruct (c =? "..").
    { injection S as <-. now apply IH. }
    destruct (dict_get c entries) as [child|] eqn:G; [|discriminate].
    injection S as <-. destruct D' as [sub R'].
    rewrite resolve_snoc, R, G in R'. injection R' as ->.
    now apply IH.
Qed.

Lemma makedirs_made path t t1 :
  makedirs path t = (Return tt, t1) ->
  is_dir_node t = true ->
  exists p, walk t1 (Str.split posixpath.sep path) [] = Return p /\ dir_at t1 p.
Proof.
  unfold makedirs. destruct (path =? ""); [discriminate|].
  intros M D. eapply makedirs_walk_made; [eassumption|].
  destruct t; try discriminate. now eexists.
Qed.

Lemma makedirs_existing path t p :
  (path =? "") = false ->
  walk t (Str.split posixpath.sep path) [] = Return p -> dir_at t p ->
  makedirs path t = (Return tt, t).
Proof.
  intros N W D. unfold makedirs. rewrite N.
  rewrite <- (app_nil_r (Str.split posixpath.sep path)).
  erewrite makedirs_walk_existing by eassumption. reflexivity.
Qed.

(** makedirs fails at once on a root that is no directory; it returns only
    on one that is. *)
Lemma makedirs_root path t t1 :
  makedirs path t = (Return tt, t1) -> is_dir_node t = true.
Proof.
  unfold makedirs. destruct (path =? ""); [discriminate|].
  destruct (Str.split posixpath.sep path) as [|c comps] eqn:S;
    [now apply split_nonempty in S|].
  cbn [makedirs_walk resolve]. destruct t; try discriminate. reflexivity.
Qed.

(** ** apply_prefs *)

Lemma _sync_read_prefs_node path w :
  _sync_read_prefs path w
  = (read_node (lookup path w), add_trace w (Sys_open_r path)).
Proof. rewrite _sync_read_prefs_run. now destruct (lookup path w) as [[]|]. Qed.

(** The tree is all [apply_prefs] reads of the world, and [apply_prefs_fs]
    tells what it returns and what tree it leaves. *)
Lemma apply_prefs_tree self w :
  seen (apply_prefs self w) = apply_prefs_fs self (fs w).
Proof.
  unfold apply_prefs, apply_prefs_fs.
  destruct (posixpath.is_nil (prefs self) || _prefs_applied self); [reflexivity|].
  cbv zeta.
  set (prefs_path := posixpath.join (user_data_dir self) ["Default"; "Preferences"]).
  unfold bind at 1. rewrite os_makedirs_run.
  destruct (makedirs (posixpath.dirname prefs_path) (fs w)) as [[[]|e] t1];
    cbn [fst snd]; [|reflexivity].
  unfold try_except, try_block_fs. cbv zeta.
  unfold bind at 1. rewrite os_path_exists_run.
  unfold lookup at 1. rewrite fs_set_fs.
  set (w2 := add_trace _ (Sys_stat prefs_path)).
  assert (F2 : fs w2 = t1) by reflexivity.
  destruct (if prefs_path =? "" then false
            else match node_at t1 prefs_path with
                 | Some _ => true
                 | None => false
                 end) eqn:Present.
  - unfold bind at 1. rewrite _sync_read_prefs_node. unfold lookup. rewrite F2.
    destruct (read_node (node_at t1 prefs_path)) as [existing|e];
      [|reflexivity].
    destruct existing as [| | | | |d|]; try reflexivity.
    unfold bind at 1. cbn [py_update ret].
    unfold bind at 1. rewrite _sync_write_prefs_run. cbv zeta.
    rewrite fs_add_trace, F2. unfold dumped.
    destruct (create true prefs_path _ t1) as [t2|e]; [|reflexivity].
    destruct (serialisable _); reflexivity.
  - unfold bind at 1. cbn [ret].
    unfold bind at 1. cbn [py_update ret].
    unfold bind at 1. rewrite _sync_write_prefs_run. cbv zeta.
    rewrite F2. unfold dumped.
    destruct (create true prefs_path _ t1) as [t2|e]; [|reflexivity].
    destruct (serialisable _); reflexivity.
Qed.

Lemma seen_eq {A} (r : outcome A * World) o t :
  seen r = (o, t) -> exists w, r = (o, w) /\ fs w = t.
Proof. destruct r as [o' w]. unfold seen. cbn. intros [= -> <-]. eauto. Qed.

Lemma try_block_cases self prefs_path t o t' :
  try_block_fs self prefs_path t = (o, t') ->
  o = Return (with_prefs_applied self)
  \/ (exists e, o = Raise e /\ t' = t)
  \/ (exists e data,
         o = Raise e
         /\ create true prefs_path (PartialJson (VDict data)) t = Return t').
Proof.
  unfold try_block_fs. cbv zeta.
  destruct (if if prefs_path =? "" then false else _ then _ else _)
    as [existing|e]; [|intros [= <- <-]; eauto].
  destruct existing as [| | | | |d|]; try (intros [= <- <-]; eauto).
  unfold dumped.
  destruct (serialisable (VDict (prefs_to_json (dict_update d (prefs self))))).
  - destruct (create true _ _ t) as [t2|e]; intros [= <- <-]; eauto.
  - destruct (create true _ _ t) as [t2|e] eqn:P; intros [= <- <-]; eauto 6.
Qed.

(** Once the directory of the preference file is there, making it again
    changes nothing. *)
Lemma makedirs_again path t t1 :
  makedirs path t = (Return tt, t1) -> makedirs path t1 = (Return tt, t1).
Proof.
  intros M. pose proof (makedirs_root _ _ M) as D.
  destruct (makedirs_made _ _ M D) as (p & W & Dp).
  eapply makedirs_existing; try eassumption.
  unfold makedirs in M. now destruct (path =? "").
Qed.

(** Applying again what was applied, or what failed, leaves the tree as the
    first call left it. *)
Lemma apply_prefs_fs_again self t c1 t1 :
  apply_prefs_fs self t = (Return c1, t1) ->
  apply_prefs_fs c1 t1 = (Return c1, t1).
Proof.
  unfold apply_prefs_fs at 1.
  destruct (posixpath.is_nil (prefs self) || _prefs_applied self) eqn:G.
  - intros [= <- <-]. unfold apply_prefs_fs. now rewrite G.
  - cbv zeta.
    set (prefs_path := posixpath.join (user_data_dir self) ["Default"; "Preferences"]).
    destruct (makedirs (posixpath.dirname prefs_path) t) as [[[]|e] ta] eqn:M;
      [|discriminate].
    pose proof (makedirs_root _ _ M) as Root.
    destruct (makedirs_made _ _ M Root) as (pd & W & Dp).
    assert (NE : (posixpath.dirname prefs_path =? "") = false)
      by (unfold makedirs in M; now destruct (posixpath.dirname prefs_path =? "")).
    apply makedirs_again in M.
    destruct (try_block_fs self prefs_path ta) as [o tb] eqn:B.
    destruct (try_block_cases _ _ _ B) as [->|[(e & -> & ->)|(e & data & -> & P)]].
    + intros [= <- <-]. unfold apply_prefs_fs. cbn. now rewrite orb_true_r.
    + intros [= <- <-]. unfold apply_prefs_fs. rewrite G. cbv zeta.
      fold prefs_path. now rewrite M, B.
    + intros [= <- <-]. unfold apply_prefs_fs. rewrite G. cbv zeta.
      fold prefs_path.
      pose proof (create_keeps_dirs _ _ _ _ P) as K.
      erewrite makedirs_existing;
        [| exact NE | eapply walk_keeps; eassumption
         | eapply keeps_dirs_dir_at; eassumption].
      destruct (split_prefs_path (user_data_dir self)) as (_ & NP & _).
      fold prefs_path in NP.
      unfold try_block_fs. cbv zeta.
      now rewrite (node_at_created _ _ _ _ P), NP.
Qed.

(** apply_prefs raises exactly when the directory cannot be made: what
    fails inside the [try] block comes back as a warning. *)
Lemma apply_prefs_raises self w e :
  fst (apply_prefs self w) = Raise e
  <-> posixpath.is_nil (prefs self) || _prefs_applied self = false
      /\ fst (makedirs (posixpath.dirname
                          (posixpath.join (user_data_dir self)
                                          ["Default"; "Preferences"]))
                       (fs w)) = Raise e.
Proof.
  pose proof (apply_prefs_tree self w) as T. unfold seen in T.
  unfold apply_prefs_fs in T.
  destruct (posixpath.is_nil (prefs self) || _prefs_applied self).
  - injection T as -> _. split; [discriminate | intros [? _]; discriminate].
  - cbv zeta in T. destruct (makedirs _ (fs w)) as [[[]|e'] t1]; cbn [fst].
    + destruct (try_block_fs self _ t1) as [[c|e''] t2]; injection T as -> _;
        (split; [discriminate | intros [_ ?]; discriminate]).
    + injection T as -> _. split; [intros [= ->]; now split | intros [_ [= ->]]; reflexivity].
Qed.

(** C2.  The directory is made before the [try] block is entered: where
    [Default] is a regular file, apply_prefs raises FileExistsError to its
    caller, [Config.__call__] with it, and no warning is logged; a
    preference file that is not a JSON document, by contrast, is met inside
    the block and ends as a warning. *)
Theorem apply_prefs_makedirs_raises :
  seen (apply_prefs images_config blocked_world)
  = (Raise FileExistsError, fs blocked_world)
  /\ records (snd (apply_prefs images_config blocked_world)) = []
  /\ fst (Config_call images_config blocked_world) = Raise FileExistsError
  /\ seen (apply_prefs images_config garbled_world)
     = (Return images_config, fs garbled_world)
  /\ records (snd (apply_prefs images_config garbled_world))
     = [LogWarning "Failed to apply preferences: " JSONDecodeError].
Proof. repeat split; vm_compute; reflexivity. Qed.

(** C4.  Once [_prefs_applied] is true, apply_prefs returns at once and
    leaves the world, its trace of file-system calls included, as it was;
    no call sets the flag back to false, so it goes from false to true at
    most once; and a second call of apply_prefs after a first one that
    returned leaves the tree as the first call left it. *)
Theorem apply_prefs_once :
  (forall self w, _prefs_applied self = true ->
                  apply_prefs self w = (Return self, w))
  /\ (forall c c', later c c' ->
                   _prefs_applied c = true -> _prefs_applied c' = true)
  /\ (forall self w c1 w1,
         apply_prefs self w = (Return c1, w1) ->
         exists w2, apply_prefs c1 w1 = (Return c1, w2) /\ fs w2 = fs w1).
Proof.
  split; [|split].
  - intros self w A. unfold apply_prefs. now rewrite A, orb_true_r.
  - intros c c' L. now destruct (later_frame L) as (_ & _ & P & _).
  - intros self w c1 w1 A.
    pose proof (apply_prefs_tree self w) as T. rewrite A in T. unfold seen in T.
    cbn [fst snd] in T. symmetry in T. apply apply_prefs_fs_again in T.
    rewrite <- apply_prefs_tree in T. now apply seen_eq in T.
Qed.

Lemma apply_prefs_once_witness :
  let c1 := with_prefs_applied images_config in
  let w1 := snd (apply_prefs images_config root_world) in
  apply_prefs c1 w1 = (Return c1, w1)
  /\ _prefs_applied (fst (run Call_render c1 w1)) = true
  /\ exists w2, apply_prefs c1 w1 = (Return c1, w2) /\ fs w2 = fs w1.
Proof.
  cbv zeta. destruct apply_prefs_once as (A & B & C).
  split; [apply A; reflexivity|]. split.
  - apply (B (with_prefs_applied images_config)); [|reflexivity].
    apply later_call, later_now.
  - apply (C images_config root_world). vm_compute. reflexivity.
Defined.

Example apply_prefs_twice_garbled :
  let w1 := snd (apply_prefs images_config garbled_world) in
  seen (apply_prefs images_config w1) = (Return images_config, fs garbled_world)
  /\ trace (snd (apply_prefs images_config w1))
     = [Sys_makedirs "/tmp/uc_0/Default";
        Sys_stat "/tmp/uc_0/Default/Preferences";
        Sys_open_r "/tmp/uc_0/Default/Preferences";
        Sys_makedirs "/tmp/uc_0/Default";
        Sys_stat "/tmp/uc_0/Default/Preferences";
        Sys_open_r "/tmp/uc_0/Default/Preferences"].
Proof. split; vm_compute; reflexivity. Qed.

(** ** C9: a fresh profile *)


(** In a profile directory that is there, making [Default] brings no
    preference file into being. *)
Lemma fresh_profile_no_file udd t entries :
  let prefs_path := posixpath.join udd ["Default"; "Preferences"] in
  node_at t udd = Some (Dir entries) ->
  node_at t prefs_path = None ->
  node_at (snd (makedirs (posixpath.dirname prefs_path) t)) prefs_path = None.
Proof.
  cbv zeta. intros U L.
  destruct (split_default_dir udd) as (prefix & stay & St & SU & SD & _).
  destruct (split_prefs_path udd) as (S & NP & ND). cbv zeta in S, NP, ND.
  rewrite prefs_dir_eq in *. rewrite SD in S.
  unfold node_at, locate in U. destruct (udd =? ""); [discriminate|].
  rewrite SU, walk_app in U.
  destruct (walk t prefix []) as [pu|e] eqn:W; [|discriminate].
  assert (R : resolve pu t = Some (Dir entries)).
  { destruct St as [-> | ->]; cbn [walk] in U; [exact U|].
    destruct (step t pu "") as [p'|e] eqn:Sp; [|discriminate].
    pose proof Sp as Sd. apply step_dir in Sd.
    rewrite (step_stay Sd) in Sp. injection Sp as <-. exact U. }
  clear U. unfold makedirs. rewrite ND, SD.
  erewrite makedirs_walk_existing; [|eassumption | now exists entries].
  cbn [makedirs_walk]. rewrite R. cbn [String.eqb Ascii.eqb Bool.eqb orb].
  destruct (dict_get "Default" entries) as [[sub| | | |]|] eqn:G;
    try exact L.
  destruct (place false (pu ++ ["Default"]) (Dir []) t) as [t'|e] eqn:P;
    [|exact L].
  cbn [snd]. pose proof (resolve_place _ _ _ _ P) as RP.
  erewrite node_at_child with (pos := pu ++ ["Default"]);
    [| exact NP | exact S | reflexivity |].
  - now rewrite resolve_snoc, RP.
  - rewrite walk_app.
    rewrite (walk_keeps _ _ (place_keeps_dirs _ _ _ _ P) W).
    cbn [walk]. rewrite step_plain by reflexivity.
    rewrite resolve_snoc in RP.
    destruct (resolve pu t') as [[es'| | | |]|]; try discriminate.
    now rewrite RP.
Qed.



Example apply_prefs_fresh_profile_tree :
  fs (snd (apply_prefs images_config root_world))
  = Dir [("tmp", Dir [("uc_0", Dir [("Default",
            Dir [("Preferences", JsonFile (VDict images_tree))])])]);
         ("usr", Dir [("bin", Dir [("google-chrome", OtherFile "ELF")])])].
Proof. vm_compute. reflexivity. Qed.

(** Why the file has to be absent once the directory is made: a profile
    path that climbs back out of [Default/Preferences] makes os.makedirs
    create a directory of that name, which the [try] block then fails to
    read.  No preference file was there before the call. *)
Example apply_prefs_profile_through_the_file :
  let self := set_user_data_dir images_config "/tmp/p/Default/Preferences/../.." in
  let prefs_path :=
    posixpath.join (user_data_dir self) ["Default"; "Preferences"] in
  lookup prefs_path root_world = None
  /\ fst (os_makedirs (posixpath.dirname prefs_path) root_world) = Return tt
  /\ fst (apply_prefs self root_world) = Return self
  /\ lookup "/tmp/p/Default/Preferences" (snd (apply_prefs self root_world))
     = Some (Dir [])
  /\ records (snd (apply_prefs self root_world))
     = records root_world
       ++ [LogWarning "Failed to apply preferences: " IsADirectoryError].
Proof. cbv zeta. repeat split; vm_compute; reflexivity. Qed.

(* ================================================================= *)
(** * Further properties *)

(** ** prefs_to_json: reading back, keys and order *)

Lemma get_path_nil_apart (p : list string) : ~ apart p [].
Proof. intros [_ A]. destruct p; discriminate. Qed.

Lemma apart_nil (p : list string) : ~ apart [] p.
Proof. intros [A _]. discriminate. Qed.

Lemma get_path_nest_apart q : forall p v,
  apart p q -> get_path p (nest q v) = None.
Proof.
  induction q as [|k r IH]; intros p v A.
  - now apply get_path_nil_apart in A.
  - destruct p as [|k0 r0]; [now apply apart_nil in A|].
    cbn [nest get_path dict_get]. destruct (k =? k0) eqn:E; [|reflexivity].
    apply String.eqb_eq in E. subst k0. apply IH. now apply apart_cons in A.
Qed.

(** Merging the one-branch tree of a path leaves what lies at a path apart
    from it as it was. *)
Lemma get_path_deep_merge_other rest : forall k t v p,
  apart p (k :: rest) ->
  get_path p (VDict (deep_merge t [(k, nest rest v)])) = get_path p (VDict t).
Proof.
  induction rest as [|k' r IH]; intros k t v p A;
    (destruct p as [|k0 r0]; [now apply apart_nil in A|]);
    rewrite deep_merge_single;
    change (get_path (k0 :: r0) (VDict ?d))
      with (match dict_get k0 d with
            | Some child => get_path r0 child
            | None => None
            end);
    (destruct (String.eqb_spec k k0) as [<-|N];
     [|now rewrite dict_get_set_other]);
    apply apart_cons in A; rewrite dict_get_set_same.
  - now apply get_path_nil_apart in A.
  - destruct r0 as [|k1 r1]; [now apply apart_nil in A|].
    change (nest (k' :: r) v) with (VDict [(k', nest r v)]).
    destruct (dict_get k t) as [old|].
    + destruct (is_dict old) eqn:D.
      * destruct old; try discriminate. cbn [merged]. now apply IH.
      * rewrite (get_path_scalar k1 r1 old D).
        replace (merged (Some old) (VDict [(k', nest r v)]))
          with (nest (k' :: r) v) by (destruct old; try reflexivity; discriminate).
        now apply get_path_nest_apart.
    + cbn [merged]. change (VDict [(k', nest r v)]) with (nest (k' :: r) v).
      now apply get_path_nest_apart.
Qed.

Lemma merged_scalar old v : is_dict v = false -> merged old v = v.
Proof. destruct old as [[]|], v; cbn; congruence. Qed.

(** X1.  In the tree of a flat mapping without colliding keys, every entry
    whose value is no mapping is found at the path of its dotted key. *)
Theorem prefs_to_json_read_back m key value :
  collision_free m = true -> In (key, value) m -> is_dict value = false ->
  get_path (segments key) (VDict (prefs_to_json m)) = Some value.
Proof.
  induction m as [|[k v] m IH] using rev_ind; intros C I S; [destruct I|].
  apply collision_free_app in C. destruct C as [C A].
  apply in_app_or in I. destruct I as [I|[[= -> ->]|[]]].
  - rewrite prefs_to_json_snoc.
    destruct (undot_key_segments k v) as (k1 & rest & Seg & ->).
    rewrite get_path_deep_merge_other; [now apply IH|].
    specialize (A _ I). cbn [fst] in A. unfold collide in A.
    apply orb_false_iff in A. rewrite Seg in A. exact A.
  - rewrite prefs_to_json_snoc.
    destruct (undot_key_segments key value) as (k1 & rest & -> & ->).
    rewrite get_path_deep_merge. now rewrite merged_scalar.
Qed.

Lemma prefs_to_json_read_back_witness :
  get_path ["profile"; "default_content_setting_values"; "popups"]
           (VDict (prefs_to_json
                     [("profile.default_content_setting_values.images", VInt 2);
                      ("profile.default_content_setting_values.popups", VInt 1);
                      ("credentials_enable_service", VBool false)]))
  = Some (VInt 1).
Proof.
  apply (@prefs_to_json_read_back
           [("profile.default_content_setting_values.images", VInt 2);
            ("profile.default_content_setting_values.popups", VInt 1);
            ("credentials_enable_service", VBool false)]
           "profile.default_content_setting_values.popups" (VInt 1));
    [reflexivity | right; left; reflexivity | reflexivity].
Defined.

Lemma partition_none_iff c s :
  Str.partition c s = None <-> Str.has_char c s = false.
Proof.
  induction s as [|a s IH]; simpl; [tauto|].
  destruct (Str.eqb_char a c); simpl.
  - split; discriminate.
  - destruct (Str.partition c s) as [[h t]|].
    + split; [discriminate|]. intros H. apply IH in H. discriminate.
    + tauto.
Qed.

Lemma partition_head_dotless c s h t :
  Str.partition c s = Some (h, t) -> Str.has_char c h = false.
Proof.
  revert h. induction s as [|a s IH]; intros h; simpl; [discriminate|].
  destruct (Str.eqb_char a c) eqn:E.
  - intros [= <- <-]. reflexivity.
  - destruct (Str.partition c s) as [[h' t']|]; [|discriminate].
    intros [= <- <-]. simpl. rewrite E. now apply IH.
Qed.

Lemma undot_key_dotless key value :
  Str.has_char dot key = false -> undot_key key value = [(key, value)].
Proof.
  intros H. rewrite undot_key_eq. apply partition_none_iff in H. now rewrite H.
Qed.

(** The one key of [undot_key] is the first segment of the key, and holds
    no dot. *)
Lemma undot_key_first key value :
  exists child, undot_key key value = [(first_segment key, child)]
                /\ Str.has_char dot (first_segment key) = false.
Proof.
  unfold first_segment, segments. rewrite undot_key_eq.
  destruct (Str.partition dot key) as [[h t]|] eqn:P.
  - rewrite (split_partition_some _ _ P). cbn [hd].
    eexists. split; [reflexivity|]. now apply partition_head_dotless in P.
  - rewrite (split_partition_none _ _ P). cbn [hd].
    eexists. split; [reflexivity|]. now apply partition_none_iff.
Qed.

Section KeysFacts.
Variable V : Type.
Implicit Types (d : list (string * V)) (k : string) (v : V).

Lemma dict_get_none_iff k d : dict_get k d = None <-> ~ In k (keys d).
Proof.
  induction d as [|[k' w] d IH]; simpl.
  - tauto.
  - destruct (String.eqb_spec k' k) as [->|N].
    + split; [discriminate | intros H; exfalso; auto].
    + rewrite IH. tauto.
Qed.

Lemma dict_mem_In k d : dict_mem k d = true <-> In k (keys d).
Proof.
  unfold dict_mem. pose proof (dict_get_none_iff k d) as N.
  destruct (dict_get k d).
  - split; [|reflexivity]. intros _.
    destruct (in_dec string_dec k (keys d)) as [I|I]; [assumption|].
    apply N in I. discriminate.
  - split; [discriminate|]. intros I. now apply N in I.
Qed.

(** Assigning to a key keeps the order of the keys: a key that is there
    stays where it is, a new one goes to the end. *)
Lemma keys_dict_set k v d :
  keys (dict_set k v d) = if dict_mem k d then keys d else keys d ++ [k].
Proof.
  unfold dict_mem. induction d as [|[k' w] d IH]; simpl; [reflexivity|].
  destruct (String.eqb k' k) eqn:E; simpl.
  - apply String.eqb_eq in E. now subst.
  - rewrite IH. now destruct (dict_get k d).
Qed.

End KeysFacts.

Lemma distinct_NoDup l : distinct l = true <-> NoDup l.
Proof.
  induction l as [|x l IH]; simpl.
  - split; [constructor | reflexivity].
  - rewrite andb_true_iff, negb_true_iff, IH. split.
    + intros [M N]. constructor; [|assumption].
      intros I. apply mem_In in I. congruence.
    + intros N. inversion N as [|? ? I N']; subst. split; [|assumption].
      destruct (Str.mem x l) eqn:M; [|reflexivity]. apply mem_In in M. contradiction.
Qed.

Lemma keys_merge_item result key value :
  keys (merge_item result (key, value))
  = if dict_mem key result then keys result else keys result ++ [key].
Proof. rewrite merge_item_set. apply keys_dict_set. Qed.

(** The keys of a merge, for any two lists of items. *)
Lemma keys_deep_merge dict2 : forall dict1,
  NoDup (keys dict2) ->
  keys (deep_merge dict1 dict2)
  = keys dict1 ++ filter (fun k => negb (Str.mem k (keys dict1))) (keys dict2).
Proof.
  induction dict2 as [|[k v] rest IH]; intros dict1 N; rewrite deep_merge_fold.
  - cbn. now rewrite app_nil_r.
  - cbn [fold_left]. rewrite <- deep_merge_fold.
    inversion N as [|? ? K N']; subst.
    rewrite (IH _ N'), keys_merge_item. cbn [keys map fst filter].
    destruct (dict_mem k dict1) eqn:M.
    + apply dict_mem_In in M. apply mem_In in M. rewrite M. reflexivity.
    + assert (M' : Str.mem k (keys dict1) = false).
      { destruct (Str.mem k (keys dict1)) eqn:M'; [|reflexivity].
        apply mem_In, dict_mem_In in M'. congruence. }
      rewrite M'. cbn [negb]. rewrite <- app_assoc. cbn [app]. unfold keys.
      do 2 f_equal. apply filter_ext_in. intros x I. f_equal.
      unfold Str.mem. rewrite existsb_app. cbn [existsb].
      rewrite orb_false_r.
      destruct (String.eqb_spec x k) as [->|_]; [contradiction|].
      now rewrite orb_false_r.
Qed.

(** X2.  deep_merge keeps the order of insertion: the keys of the first
    mapping stay where they are, none is lost, and the keys the second
    mapping brings are appended in its order. *)
Theorem deep_merge_keeps_order dict1 dict2 :
  distinct (keys dict2) = true ->
  keys (deep_merge dict1 dict2)
  = keys dict1 ++ filter (fun k => negb (Str.mem k (keys dict1))) (keys dict2).
Proof. intros D. apply keys_deep_merge. now apply distinct_NoDup. Qed.

Lemma deep_merge_keeps_order_witness :
  keys (deep_merge [("b", VInt 1); ("a", VDict [("x", VInt 1)])]
                   [("c", VInt 2); ("a", VDict [("y", VInt 2)]); ("d", VNone)])
  = ["b"; "a"] ++ filter (fun k => negb (Str.mem k ["b"; "a"])) ["c"; "a"; "d"].
Proof.
  exact (@deep_merge_keeps_order
           [("b", VInt 1); ("a", VDict [("x", VInt 1)])]
           [("c", VInt 2); ("a", VDict [("y", VInt 2)]); ("d", VNone)] eq_refl).
Defined.

Lemma prefs_to_json_fold_dotless m : forall acc,
  dotless m = true -> NoDup (keys acc ++ keys m) ->
  fold_left (fun result kv => deep_merge result (undot_key (fst kv) (snd kv)))
            m acc
  = acc ++ m.
Proof.
  induction m as [|[k v] m IH]; intros acc D N.
  - cbn. now rewrite app_nil_r.
  - cbn [fold_left fst snd]. cbn in D. apply andb_true_iff in D.
    destruct D as [Dk D]. apply negb_true_iff in Dk.
    rewrite (undot_key_dotless k v Dk), deep_merge_single.
    assert (G : dict_get k acc = None).
    { apply dict_get_none_iff. intros I.
      cbn [keys map fst] in N. apply NoDup_remove_2 in N.
      apply N, in_or_app. now left. }
    rewrite G. cbn [merged]. rewrite (dict_set_absent k v acc G).
    rewrite IH; [now rewrite <- app_assoc | assumption |].
    unfold keys in *. rewrite map_app, <- app_assoc. exact N.
Qed.

(** X3.  A mapping whose keys hold no dot and are pairwise distinct comes
    back from prefs_to_json as it is, entry for entry and in its order;
    mappings among its values are not looked into. *)
Theorem prefs_to_json_dotless m :
  dotless m = true -> distinct (keys m) = true -> prefs_to_json m = m.
Proof.
  intros D N. unfold prefs_to_json.
  rewrite prefs_to_json_fold_dotless; [reflexivity | assumption |].
  now apply distinct_NoDup.
Qed.

Lemma prefs_to_json_dotless_witness :
  prefs_to_json [("profile", VDict [("content.settings", VInt 1)]);
                 ("browser", VDict [("enabled_labs_experiments", VList [])])]
  = [("profile", VDict [("content.settings", VInt 1)]);
     ("browser", VDict [("enabled_labs_experiments", VList [])])].
Proof.
  exact (@prefs_to_json_dotless
           [("profile", VDict [("content.settings", VInt 1)]);
            ("browser", VDict [("enabled_labs_experiments", VList [])])]
           eq_refl eq_refl).
Defined.

Lemma keys_prefs_to_json_snoc m key value :
  keys (prefs_to_json (m ++ [(key, value)]))
  = if dict_mem (first_segment key) (prefs_to_json m)
    then keys (prefs_to_json m)
    else keys (prefs_to_json m) ++ [first_segment key].
Proof.
  rewrite prefs_to_json_snoc.
  destruct (undot_key_first key value) as (child & -> & _).
  rewrite deep_merge_single. apply keys_dict_set.
Qed.

Lemma dict_mem_mem (d : dict) k : dict_mem k d = Str.mem k (keys d).
Proof.
  destruct (Str.mem k (keys d)) eqn:M.
  - now apply dict_mem_In, mem_In.
  - destruct (dict_mem k d) eqn:D; [|reflexivity].
    apply dict_mem_In, mem_In in D. congruence.
Qed.

Lemma first_seen_In l k : In k (first_seen l) <-> In k l.
Proof.
  unfold first_seen. induction l as [|x l IH] using rev_ind.
  - reflexivity.
  - rewrite fold_left_app. cbn [fold_left].
    destruct (Str.mem x (fold_left _ l [])) eqn:M.
    + rewrite IH. split; [intros I; apply in_or_app; now left|].
      intros I. apply in_app_or in I. destruct I as [I|[<-|[]]]; [assumption|].
      now apply IH, mem_In.
    + split; intros I; apply in_app_or in I; apply in_or_app;
        (destruct I as [I|I]; [left; now apply IH | now right]).
Qed.

Lemma first_seen_NoDup l : NoDup (first_seen l).
Proof.
  unfold first_seen. induction l as [|x l IH] using rev_ind.
  - constructor.
  - rewrite fold_left_app. cbn [fold_left].
    destruct (Str.mem x (fold_left _ l [])) eqn:M; [assumption|].
    apply NoDup_app; [assumption | repeat constructor; intros [] |].
    intros k I [<-|[]]. apply mem_In in I. congruence.
Qed.

(** X4.  The keys at the top of the tree are the first segments of the flat
    keys, each once and in the order of their first appearance; none of
    them holds a dot. *)
Theorem prefs_to_json_top_keys m :
  keys (prefs_to_json m) = first_seen (map first_segment (keys m))
  /\ NoDup (keys (prefs_to_json m))
  /\ (forall k, In k (keys (prefs_to_json m)) -> Str.has_char dot k = false).
Proof.
  assert (E : keys (prefs_to_json m) = first_seen (map first_segment (keys m))).
  { induction m as [|[key v] m IH] using rev_ind; [reflexivity|].
    rewrite keys_prefs_to_json_snoc, dict_mem_mem, IH.
    unfold keys, first_seen. rewrite !map_app, fold_left_app. reflexivity. }
  split; [exact E|]. rewrite E. split; [apply first_seen_NoDup|].
  intros k I. apply first_seen_In, in_map_iff in I. destruct I as (key & <- & _).
  now destruct (undot_key_first key VNone) as (_ & _ & D).
Qed.

(** ** The preference file: writing and reading *)




(** X6.  What read_prefs returns after write_prefs is the nested tree of
    the preferences, not the flat mapping that was passed; flattening it
    gives the entries of that mapping back when no two keys collide and no
    value is a mapping. *)
Theorem write_prefs_then_read_prefs prefs path w w1 :
  write_prefs prefs path w = (Return tt, w1) ->
  fst (read_prefs path w1) = Return (VDict (prefs_to_json prefs))
  /\ (collision_free prefs = true -> scalar_values prefs = true ->
      Permutation (flatten (prefs_to_json prefs)) prefs).
Proof.
  unfold write_prefs, read_prefs. cbv zeta. intros W.
  split; [|apply flatten_prefs_to_json].
  rewrite _sync_write_prefs_run in W. cbv zeta in W.
  destruct (create true path _ (fs w)) as [t|e] eqn:P;
    [|discriminate].
  pose proof (node_at_created _ _ _ _ P) as R.
  destruct (serialisable (VDict (prefs_to_json prefs))); [|discriminate].
  injection W as <-.
  unfold bind, ret. rewrite _sync_read_prefs_node. unfold lookup.
  rewrite fs_set_fs, R. reflexivity.
Qed.

Lemma write_prefs_then_read_prefs_witness :
  fst (read_prefs "/tmp/uc_0/Preferences"
         (snd (write_prefs images_prefs "/tmp/uc_0/Preferences" root_world)))
  = Return (VDict (prefs_to_json images_prefs))
  /\ Permutation (flatten (prefs_to_json images_prefs)) images_prefs.
Proof.
  destruct (@write_prefs_then_read_prefs images_prefs "/tmp/uc_0/Preferences"
              root_world
              (snd (write_prefs images_prefs "/tmp/uc_0/Preferences" root_world))
              eq_refl) as [R F].
  split; [exact R | apply F; reflexivity].
Defined.

(** ** apply_prefs: an existing preference file, and the log *)

(** A preference file that is there lies in a directory, and making that
    directory changes nothing. *)
Lemma prefs_file_present udd t x :
  let prefs_path := posixpath.join udd ["Default"; "Preferences"] in
  node_at t prefs_path = Some x ->
  exists pd,
    walk t (Str.split posixpath.sep (posixpath.dirname prefs_path)) [] = Return pd
    /\ resolve (pd ++ ["Preferences"]) t = Some x
    /\ makedirs (posixpath.dirname prefs_path) t = (Return tt, t).
Proof.
  cbv zeta. intros L.
  destruct (split_prefs_path udd) as (S & NP & ND). cbv zeta in S, NP, ND.
  destruct (@node_at_parent t _ _ "Preferences" x NP S eq_refl L)
    as (pd & W & Dp & R).
  exists pd. repeat split; try assumption.
  eapply makedirs_existing; eassumption.
Qed.

(** X7.  Where the preference file holds a JSON object, apply_prefs
    updates that object with the flat preferences as [dict.update] does,
    converts the whole of the result with prefs_to_json and writes it
    back; the preferences then count as applied.  The entries the file
    held go through the conversion as well: an entry [a] is replaced by a
    mapping when a preference [a.b] is merged into it. *)
Theorem apply_prefs_existing_file self w existing :
  let prefs_path :=
    posixpath.join (user_data_dir self) ["Default"; "Preferences"] in
  let data := prefs_to_json (dict_update existing (prefs self)) in
  posixpath.is_nil (prefs self) = false ->
  _prefs_applied self = false ->
  lookup prefs_path w = Some (JsonFile (VDict existing)) ->
  serialisable (VDict data) = true ->
  exists w',
    apply_prefs self w = (Return (with_prefs_applied self), w')
    /\ lookup prefs_path w' = Some (JsonFile (VDict data)).
Proof.
  cbv zeta. intros P A L S.
  destruct (split_prefs_path (user_data_dir self)) as (Sp & NP & _).
  cbv zeta in Sp, NP.
  destruct (prefs_file_present _ _ L) as (pd & W & R & D).
  set (prefs_path := posixpath.join (user_data_dir self) ["Default"; "Preferences"]) in *.
  set (data := prefs_to_json (dict_update existing (prefs self))) in *.
  destruct (place_over_file (JsonFile (VDict data)) _ _ _ R eq_refl) as (t2 & PL).
  assert (C : create true prefs_path (JsonFile (VDict data)) (fs w) = Return t2).
  { erewrite create_child; [exact PL | exact NP | exact Sp | reflexivity | exact W]. }
  assert (T : apply_prefs_fs self (fs w) = (Return (with_prefs_applied self), t2)).
  { unfold apply_prefs_fs. rewrite P, A. cbn [orb]. cbv zeta.
    fold prefs_path. rewrite D.
    unfold try_block_fs. cbv zeta. unfold lookup in L. rewrite NP, L.
    cbn [read_node]. fold data. unfold dumped. rewrite S, C. reflexivity. }
  rewrite <- apply_prefs_tree in T. apply seen_eq in T.
  destruct T as (w' & -> & F). exists w'. split; [reflexivity|].
  unfold lookup. rewrite F. exact (node_at_created _ _ _ _ C).
Qed.

Lemma apply_prefs_existing_file_witness :
  let w :=
    mkWorld (Dir [("tmp", Dir [("uc_0", Dir [("Default",
               Dir [("Preferences",
                     JsonFile (VDict [("profile", VDict [("name", VStr "me")]);
                                      ("session", VDict [])]))])])])])
            Str.of_nat 1 "/tmp" [] [] in
  exists w',
    apply_prefs images_config w = (Return (with_prefs_applied images_config), w')
    /\ lookup "/tmp/uc_0/Default/Preferences" w'
       = Some (JsonFile
                 (VDict [("profile",
                          VDict [("name", VStr "me");
                                 ("default_content_setting_values",
                                  VDict [("images", VInt 2)])]);
                         ("session", VDict [])])).
Proof.
  cbv zeta.
  apply (@apply_prefs_existing_file images_config _
           [("profile", VDict [("name", VStr "me")]); ("session", VDict [])]);
    reflexivity.
Defined.

(** An entry the file held does not always survive: the scalar at [a] gives
    way to the mapping that the preference [a.b] asks for, while [keep]
    stays. *)
Example apply_prefs_existing_entry_replaced :
  prefs_to_json (dict_update [("a", VInt 1); ("keep", VInt 7)] [("a.b", VInt 2)])
  = [("a", VDict [("b", VInt 2)]); ("keep", VInt 7)].
Proof. reflexivity. Qed.

(** X8.  An apply_prefs that gets past its guard logs one record when it
    returns: the message that the preferences were applied, with the flag
    set, or one warning with the failure, with the instance as it was.  When
    it raises it has logged nothing. *)
Theorem apply_prefs_logs_once self w o w' :
  posixpath.is_nil (prefs self) || _prefs_applied self = false ->
  apply_prefs self w = (o, w') ->
  match o with
  | Raise _ => records w' = records w
  | Return c' =>
      (c' = with_prefs_applied self
       /\ records w'
          = records w
            ++ [LogInfo ("Applied preferences to "
                         ++ posixpath.join (user_data_dir self)
                                           ["Default"; "Preferences"])])
      \/ (c' = self
          /\ exists e,
               records w'
               = records w ++ [LogWarning "Failed to apply preferences: " e])
  end.
Proof.
  intros G. unfold apply_prefs. rewrite G.
  set (prefs_path := posixpath.join (user_data_dir self) ["Default"; "Preferences"]).
  unfold bind at 1. rewrite os_makedirs_run.
  destruct (makedirs (posixpath.dirname prefs_path) (fs w)) as [[[]|e] t1];
    cbn [fst snd]; [|intros [= <- <-]; reflexivity].
  unfold try_except.
  unfold bind at 1. rewrite os_path_exists_run.
  set (w2 := add_trace _ (Sys_stat prefs_path)).
  assert (R2 : records w2 = records w) by reflexivity.
  assert (H : forall existing_prefs w3,
             records w3 = records w ->
             forall o' w'',
             match
               (existing_prefs0 <- py_update existing_prefs (prefs self);;
                _sync_write_prefs (prefs_to_json existing_prefs0) prefs_path;;
                logger_info ("Applied preferences to " ++ prefs_path);;
                ret (with_prefs_applied self)) w3
             with
             | (Return a, w4) => (Return a, w4)
             | (Raise e, w4) =>
                 (logger_warning "Failed to apply preferences: " e;; ret self) w4
             end = (o', w'') ->
             match o' with
             | Raise _ => records w'' = records w
             | Return c' =>
                 (c' = with_prefs_applied self
                  /\ records w''
                     = records w ++ [LogInfo ("Applied preferences to " ++ prefs_path)])
                 \/ (c' = self
                     /\ exists e,
                          records w''
                          = records w
                            ++ [LogWarning "Failed to apply preferences: " e])
             end).
  { intros existing w3 R3 o' w''.
    destruct existing as [| | | | |d|];
      try (unfold bind, py_update, raise, logger_warning, ret;
           intros [= <- <-]; right; split; [reflexivity|];
           eexists; cbn; now rewrite R3).
    unfold bind at 1. cbn [py_update ret].
    unfold bind at 1. rewrite _sync_write_prefs_run. cbv zeta.
    destruct (create true prefs_path _ (fs w3)) as [t2|e].
    - destruct (serialisable _).
      + unfold bind, logger_info, ret. intros [= <- <-]. left.
        split; [reflexivity|]. cbn. now rewrite R3.
      + unfold bind, logger_warning, ret. intros [= <- <-]. right.
        split; [reflexivity|]. eexists. cbn. now rewrite R3.
    - unfold bind, logger_warning, ret. intros [= <- <-]. right.
      split; [reflexivity|]. eexists. cbn. now rewrite R3. }
  destruct (if prefs_path =? "" then false else _).
  - unfold bind at 1. rewrite _sync_read_prefs_node.
    destruct (read_node (lookup prefs_path w2)) as [existing|e].
    + apply H. reflexivity.
    + unfold bind, logger_warning, ret. intros [= <- <-]. right.
      split; [reflexivity|]. eexists. reflexivity.
  - unfold bind at 1. cbn [ret]. apply H. reflexivity.
Qed.

Lemma apply_prefs_logs_once_witness :
  (exists e,
      records (snd (apply_prefs images_config garbled_world))
      = records garbled_world ++ [LogWarning "Failed to apply preferences: " e])
  /\ records (snd (apply_prefs images_config root_world))
     = records root_world
       ++ [LogInfo "Applied preferences to /tmp/uc_0/Default/Preferences"].
Proof.
  split.
  - pose proof (@apply_prefs_logs_once images_config garbled_world
                  (Return images_config)
                  (snd (apply_prefs images_config garbled_world))
                  eq_refl eq_refl) as [[A _]|[_ W]]; [discriminate | exact W].
  - pose proof (@apply_prefs_logs_once images_config root_world
                  (Return (with_prefs_applied images_config))
                  (snd (apply_prefs images_config root_world))
                  eq_refl eq_refl) as [[_ I]|[A _]]; [exact I | discriminate].
Defined.

(** ** find_chrome_executable: the other outcomes *)

Lemma find_chrome_executable_nonempty h cands return_all first rest :
  candidates h = Return cands ->
  valid_candidates h cands = first :: rest ->
  exists r, find_chrome_executable h return_all = Return r
            /\ (return_all = true -> r = All (first :: rest)).
Proof.
  intros C V. pose proof (candidates_nonempty h C) as N.
  unfold find_chrome_executable. rewrite C, V.
  destruct return_all; cbn [andb negb posixpath.is_nil]; [eauto|].
  destruct (pick_winner_first_min first rest) as (w & P & F).
  assert (W : (w =? "") = false).
  { apply String.eqb_neq, N, (valid_candidates_In h). rewrite V.
    now apply first_min_In. }
  rewrite P, W. eexists. split; [reflexivity | discriminate].
Qed.

(** X9.  Once the candidate list is built, find_chrome_executable raises
    exactly when no candidate exists and is executable, and then it is
    FileNotFoundError, with return_all as without: an empty list is never
    returned.  A list it returns is the list of the valid candidates, in the
    order of discovery and not normalised. *)
Theorem find_chrome_executable_outcomes h cands return_all :
  candidates h = Return cands ->
  ((exists e, find_chrome_executable h return_all = Raise e)
   <-> valid_candidates h cands = [])
  /\ (valid_candidates h cands = [] ->
      find_chrome_executable h return_all
      = Raise (FileNotFoundError not_found_message))
  /\ (forall rv,
         find_chrome_executable h return_all = Return (All rv) ->
         return_all = true /\ rv = valid_candidates h cands /\ rv <> []
         /\ forall p, In p rv ->
                      In p cands /\ path_exists h p = true
                      /\ access_X_OK h p = true).
Proof.
  intros C.
  assert (E : valid_candidates h cands = [] ->
              find_chrome_executable h return_all
              = Raise (FileNotFoundError not_found_message)).
  { intros V. unfold find_chrome_executable. rewrite C, V.
    now destruct return_all. }
  split; [|split; [exact E|]].
  - split; [|intros V; rewrite (E V); eauto].
    intros [e R]. destruct (valid_candidates h cands) as [|first rest] eqn:V;
      [reflexivity|].
    destruct (@find_chrome_executable_nonempty h cands return_all first rest C V)
      as (r & R' & _).
    congruence.
  - intros rv R.
    destruct (valid_candidates h cands) as [|first rest] eqn:V.
    + rewrite (E eq_refl) in R. discriminate.
    + assert (B : return_all = true).
      { destruct return_all; [reflexivity|].
        unfold find_chrome_executable in R. rewrite C, V in R.
        cbn [andb] in R. destruct (pick_winner (first :: rest)); [|discriminate].
        destruct (s =? ""); discriminate. }
      destruct (@find_chrome_executable_nonempty h cands return_all first rest C V)
        as (r & R' & A).
      rewrite R' in R. rewrite (A B) in R. injection R as <-.
      repeat split; try assumption; try discriminate;
        rewrite <- V in H; unfold valid_candidates in H;
        apply filter_In in H; destruct H as [I X];
        apply andb_true_iff in X; tauto.
Qed.

Lemma find_chrome_executable_outcomes_witness :
  ((exists e, find_chrome_executable three_browsers true = Raise e)
   <-> ["/opt/xy/bin/chromium"; "/usr/bin/chrome"; "/opt/google/google-chrome"]
       = [])
  /\ find_chrome_executable three_browsers true
     = Return (All ["/opt/xy/bin/chromium"; "/usr/bin/chrome";
                    "/opt/google/google-chrome"]).
Proof.
  destruct (@find_chrome_executable_outcomes three_browsers
              (match candidates three_browsers with
               | Return cands => cands
               | Raise _ => []
               end) true eq_refl) as (A & _ & _).
  split; [exact A | reflexivity].
Defined.

(** X10.  On a POSIX platform without PATH in the environment
    find_chrome_executable raises AttributeError, not FileNotFoundError: the
    search path is split before it is looked at.  On the other platforms a
    missing variable is skipped, and with none of the four installation
    roots set the outcome is FileNotFoundError. *)
Theorem find_chrome_executable_unset_environment h return_all :
  (is_posix h = true -> environ_get h "PATH" = None ->
   exists msg, find_chrome_executable h return_all = Raise (AttributeError msg))
  /\ (is_posix h = false ->
      (forall name, In name windows_roots -> environ_get h name = None) ->
      find_chrome_executable h return_all
      = Raise (FileNotFoundError not_found_message)).
Proof.
  split.
  - intros P E. unfold find_chrome_executable, candidates. rewrite P, E. eauto.
  - intros P E. unfold find_chrome_executable, candidates. rewrite P.
    unfold windows_roots in *. cbn [map].
    rewrite !E by (simpl; tauto). cbn. now destruct return_all.
Qed.

Lemma find_chrome_executable_unset_environment_witness :
  (exists msg,
      find_chrome_executable
        (mkHost "linux" (fun _ => None) "/" ":"%char posixpath.normpath
                (fun _ => true) (fun _ => true) (Some 1000%Z) 0%Z) false
      = Raise (AttributeError msg))
  /\ find_chrome_executable
       (mkHost "win32" (fun _ => None) "\" ";"%char (fun p => p)
               (fun _ => true) (fun _ => true) None 0%Z) true
     = Raise (FileNotFoundError not_found_message).
Proof.
  split.
  - apply (proj1 (find_chrome_executable_unset_environment
                    (mkHost "linux" (fun _ => None) "/" ":"%char posixpath.normpath
                            (fun _ => true) (fun _ => true) (Some 1000%Z) 0%Z)
                    false)); reflexivity.
  - apply (proj2 (find_chrome_executable_unset_environment
                    (mkHost "win32" (fun _ => None) "\" ";"%char (fun p => p)
                            (fun _ => true) (fun _ => true) None 0%Z)
                    true)); [reflexivity | intros; reflexivity].
Defined.

(** ** Config: construction *)

(** X11.  A Config built with a profile directory and a browser executable,
    neither of them the empty string, is built on every host and in every
    world: nothing is searched for, no directory is made and the file
    system is not touched.  The Config holds the executable as given; it
    holds the directory as given and counts it as custom unless a keyword
    argument [_user_data_dir] or [_custom_data_dir] puts another value in
    its place. *)
Theorem Config_init_explicit h a w :
  truthy_str (Init.user_data_dir a) = true ->
  truthy_str (Init.browser_executable_path a) = true ->
  exists c w',
    Config_init h a w = (Return c, w')
    /\ fs w' = fs w /\ trace w' = trace w /\ cursor w' = cursor w
    /\ Init.browser_executable_path a = Some (browser_executable_path c)
    /\ ((forall path, ~ In (Kw_user_data_dir path) (Init.kwargs a)) ->
        Init.user_data_dir a = Some (user_data_dir c))
    /\ ((forall custom, ~ In (Kw_custom_data_dir custom) (Init.kwargs a)) ->
        uses_custom_data_dir c = true).
Proof.
  intros U E. unfold Config_init. cbv zeta. rewrite U, E.
  destruct (Init.user_data_dir a) as [udd|]; [|discriminate].
  destruct (Init.browser_executable_path a) as [exe|]; [|discriminate].
  unfold bind, ret.
  destruct (is_posix h && is_root h && Init.sandbox a);
    do 2 eexists; repeat split; try reflexivity;
    intros N; cbn; rewrite updated_absent; try reflexivity;
    intros [] K; try reflexivity; now apply N in K.
Qed.

Lemma Config_init_explicit_witness :
  exists c w',
    Config_init three_browsers
      (Init.mk (Some "/home/me/profile") true (Some "/usr/bin/chrome") None
               true "en-US" None None None false
               [Kw_autodiscover_targets false])
      extension_world = (Return c, w')
    /\ fs w' = fs extension_world /\ trace w' = trace extension_world
    /\ cursor w' = cursor extension_world
    /\ Some "/usr/bin/chrome" = Some (browser_executable_path c)
    /\ Some "/home/me/profile" = Some (user_data_dir c)
    /\ uses_custom_data_dir c = true.
Proof.
  destruct (@Config_init_explicit three_browsers
              (Init.mk (Some "/home/me/profile") true (Some "/usr/bin/chrome") None
                       true "en-US" None None None false
                       [Kw_autodiscover_targets false])
              extension_world eq_refl eq_refl)
    as (c & w' & I & F & T & C & E & U & K).
  exists c, w'. repeat split; try assumption.
  - apply U. intros path [D|[]]. discriminate.
  - apply K. intros custom [D|[]]. discriminate.
Defined.

(** The two keywords at work: the profile directory is the keyword's, and
    it does not count as custom. *)
Example Config_init_keywords :
  match Config_init three_browsers
          (Init.mk (Some "/home/me/profile") true (Some "/usr/bin/chrome") None
                   true "en-US" None None None false
                   [Kw_user_data_dir "/elsewhere";
                    Kw_custom_data_dir false;
                    Kw_other "note" (VInt 1) eq_refl])
          extension_world with
  | (Return c, _) =>
      user_data_dir c = "/elsewhere" /\ uses_custom_data_dir c = false
      /\ kwargs_attrs c = [("note", VInt 1)]
  | _ => False
  end.
Proof. vm_compute. repeat split. Qed.

Lemma In_count x l : In x l -> count x l <> 0.
Proof.
  unfold count. induction l as [|y l IH]; [intros []|].
  cbn [filter]. intros [->|I].
  - rewrite String.eqb_refl. discriminate.
  - destruct (x =? y); [discriminate | now apply IH].
Qed.

Lemma no_sandbox_only_from_extras self :
  _default_browser_args self = DEFAULT_BROWSER_ARGS ->
  sandbox self = true ->
  In "--no-sandbox" (assemble self) -> In "--no-sandbox" (_browser_args self).
Proof.
  intros D S I. rewrite assemble_parts in I.
  apply in_app_or in I. destruct I as [I|I].
  - exfalso. apply In_count in I. apply I.
    unfold base. rewrite D. destruct (expert self); reflexivity.
  - apply in_app_or in I. destruct I as [I|I].
    + now apply kept_extras_spec in I.
    + exfalso. apply In_count in I. apply I.
      unfold switches. rewrite S.
      destruct (headless self), (truthy_str (host self)), (truthy_int (port self));
        reflexivity.
Qed.

(** X12.  After construction the sandbox is on exactly when it was asked
    for and the process is not root on a POSIX platform; an administrator on
    another platform keeps it.  A Config with the sandbox on renders the
    no-sandbox flag only if its extra arguments hold it. *)
Theorem Config_init_sandbox h a w c w' :
  Config_init h a w = (Return c, w') ->
  sandbox c = Init.sandbox a && negb (is_posix h && is_root h)
  /\ (sandbox c = true ->
      In "--no-sandbox" (assemble c) -> In "--no-sandbox" (_browser_args c)).
Proof.
  intros I. destruct (Config_init_default_args _ _ _ I) as (D & _ & _ & S).
  split.
  - rewrite S. destruct (is_posix h), (is_root h), (Init.sandbox a); reflexivity.
  - now apply no_sandbox_only_from_extras.
Qed.

Lemma Config_init_sandbox_witness :
  sandbox root_config = true && negb (is_posix demo_host && is_root demo_host)
  /\ (sandbox root_config = true ->
      In "--no-sandbox" (assemble root_config) ->
      In "--no-sandbox" (_browser_args root_config)).
Proof.
  apply (@Config_init_sandbox demo_host Init.default demo_world
           root_config root_world); reflexivity.
Defined.

(** ** Config: arguments and rendering *)

Lemma kept_extras_append self arg :
  kept_extras (append_browser_arg self arg)
  = kept_extras self
    ++ (if Str.mem arg (base self) then [] else [arg]).
Proof.
  unfold kept_extras.
  change (base (append_browser_arg self arg)) with (base self).
  change (_browser_args (append_browser_arg self arg))
    with (_browser_args self ++ [arg]).
  rewrite filter_app. cbn [filter]. now destruct (Str.mem arg (base self)).
Qed.

(** X13.  An argument add_argument accepts is in every list the Config
    renders afterwards.  When the baseline, the user-data-dir flag, the
    re-appended flags or the expert flags hold it already the rendered list
    is as before; otherwise the argument comes after the extra arguments
    added before it and ahead of the headless, no-sandbox, host and port
    flags. *)
Theorem add_argument_rendered self arg c' :
  add_argument self arg = Return c' ->
  In arg (assemble c')
  /\ (In arg (base self) -> assemble c' = assemble self)
  /\ (~ In arg (base self) ->
      assemble c' = base self ++ kept_extras self ++ [arg] ++ switches self).
Proof.
  unfold add_argument. destruct (reserved arg); [discriminate|].
  intros [= <-].
  assert (E : assemble (append_browser_arg self arg)
              = base self
                ++ (kept_extras self
                    ++ (if Str.mem arg (base self) then [] else [arg]))
                ++ switches self).
  { rewrite assemble_parts, kept_extras_append. reflexivity. }
  pose proof (mem_In arg (base self)) as M.
  destruct (Str.mem arg (base self)).
  - assert (I : In arg (base self)) by now apply M.
    rewrite app_nil_r in E. rewrite <- assemble_parts in E.
    split; [|split; [intros _; exact E | intros N; contradiction]].
    rewrite E, assemble_parts. apply in_or_app. now left.
  - assert (N : ~ In arg (base self)) by (intros I; apply M in I; discriminate).
    rewrite <- app_assoc in E.
    split; [|split; [intros I; contradiction | intros _; exact E]].
    rewrite E. apply in_or_app. right. apply in_or_app. right. now left.
Qed.

Lemma add_argument_rendered_witness :
  In "--mute-audio" (assemble (append_browser_arg demo_config "--mute-audio"))
  /\ (In "--mute-audio" (base demo_config) ->
      assemble (append_browser_arg demo_config "--mute-audio")
      = assemble demo_config)
  /\ (~ In "--mute-audio" (base demo_config) ->
      assemble (append_browser_arg demo_config "--mute-audio")
      = base demo_config ++ kept_extras demo_config ++ ["--mute-audio"]
        ++ switches demo_config).
Proof.
  exact (@add_argument_rendered demo_config "--mute-audio"
           (append_browser_arg demo_config "--mute-audio") eq_refl).
Defined.

Lemma startswith_trans p q x :
  Str.startswith p q = true -> Str.startswith q x = true ->
  Str.startswith p x = true.
Proof.
  revert q x. induction p as [|a p IH]; intros q x P Q; [reflexivity|].
  destruct q as [|b q]; [discriminate|]. destruct x as [|c x]; [discriminate|].
  cbn in *. apply andb_true_iff in P, Q. destruct P as [P1 P2], Q as [Q1 Q2].
  apply eqb_char_eq in P1, Q1. subst. unfold Str.eqb_char.
  rewrite Ascii.eqb_refl. cbn. eauto.
Qed.

(** X14.  A port of 0 is taken as no port and an empty host as no host:
    the Config then renders a remote-debugging-port flag, or a
    remote-debugging-host flag, only if its extra arguments hold one. *)
Theorem falsy_endpoint_not_rendered self :
  _default_browser_args self = DEFAULT_BROWSER_ARGS ->
  (truthy_int (port self) = false ->
   forall x, In x (assemble self) ->
             Str.startswith "--remote-debugging-port=" x = true ->
             In x (_browser_args self))
  /\ (truthy_str (host self) = false ->
      forall x, In x (assemble self) ->
                Str.startswith "--remote-debugging-host=" x = true ->
                In x (_browser_args self)).
Proof.
  intros D.
  assert (B : forall x, In x (base self) ->
                        Str.startswith "--remote-debugging-" x = false).
  { intros x I. unfold base in I. rewrite D in I.
    destruct (expert self); cbn in I;
      repeat (destruct I as [<-|I]; [reflexivity|]); destruct I. }
  assert (K : forall x, In x (assemble self) ->
                        Str.startswith "--remote-debugging-" x = true ->
                        In x (_browser_args self) \/ In x (switches self)).
  { intros x I S. rewrite assemble_parts in I.
    apply in_app_or in I. destruct I as [I|I]; [apply B in I; congruence|].
    apply in_app_or in I. destruct I as [I|I]; [|now right].
    left. now apply kept_extras_spec in I. }
  split; intros T x I S;
    (destruct (K x I) as [E|W];
     [eapply startswith_trans; [|exact S]; reflexivity | exact E |]);
    exfalso; unfold switches in W; rewrite T in W;
    destruct (headless self), (negb (sandbox self));
    destruct (truthy_str (host self)), (truthy_int (port self));
    try discriminate; cbn in W;
    repeat (destruct W as [<-|W]; [discriminate|]); destruct W.
Qed.

Lemma falsy_endpoint_not_rendered_witness :
  let c := mkConfig "/tmp/uc_0" false ["--remote-debugging-port=9"]
                    "/usr/bin/google-chrome" false true (Some "") (Some 0%Z)
                    false [] true "en-US" [] false [] DEFAULT_BROWSER_ARGS in
  (forall x, In x (assemble c) ->
             Str.startswith "--remote-debugging-port=" x = true ->
             In x (_browser_args c))
  /\ (forall x, In x (assemble c) ->
                Str.startswith "--remote-debugging-host=" x = true ->
                In x (_browser_args c)).
Proof.
  cbv zeta.
  destruct (@falsy_endpoint_not_rendered
              (mkConfig "/tmp/uc_0" false ["--remote-debugging-port=9"]
                        "/usr/bin/google-chrome" false true (Some "") (Some 0%Z)
                        false [] true "en-US" [] false [] DEFAULT_BROWSER_ARGS)
              eq_refl) as [P H].
  split; [apply P | apply H]; reflexivity.
Defined.

(** X15.  No call other than add_argument and the setter of user_data_dir
    changes what the Config renders: extensions that were added and
    preferences that were set or applied never show in the argument list,
    and rendering twice gives the same list. *)
Theorem rendering_unchanged k self w :
  changes_arguments k = false ->
  assemble (fst (run k self w)) = assemble self.
Proof.
  destruct k as [arg|p| | |p|d]; try discriminate; intros _; cbn [run].
  - destruct (add_extension self p w) as [[c'|e] w'] eqn:A; [|reflexivity].
    apply add_extension_self in A. now destruct A as [->|[e ->]].
  - destruct (apply_prefs self w) as [[c'|e] w'] eqn:A; [|reflexivity].
    apply apply_prefs_self in A. now destruct A as [->| ->].
  - destruct (Config_call self w) as [[[args c']|e] w'] eqn:A; [|reflexivity].
    apply Config_call_result in A. now destruct A as [_ [->| ->]].
  - reflexivity.
Qed.

Lemma rendering_unchanged_witness :
  assemble (fst (run (Call_add_extension "/ext") demo_config extension_world))
  = assemble demo_config.
Proof.
  exact (@rendering_unchanged (Call_add_extension "/ext") demo_config
           extension_world eq_refl).
Defined.

Lemma lower_app a b : Str.lower (a ++ b) = (Str.lower a ++ Str.lower b)%string.
Proof. induction a as [|c a IH]; simpl; [reflexivity | now rewrite IH]. Qed.

Lemma startswith_app x b : Str.startswith x (x ++ b) = true.
Proof.
  induction x as [|c x IH]; [reflexivity|]. simpl.
  unfold Str.eqb_char. now rewrite Ascii.eqb_refl.
Qed.

Lemma contains_app a x b : Str.contains x (a ++ x ++ b) = true.
Proof.
  induction a as [|c a IH].
  - cbn [append]. destruct (x ++ b)%string eqn:E;
      cbn [Str.contains]; rewrite <- E, startswith_app; reflexivity.
  - cbn [append Str.contains]. rewrite IH. apply orb_true_r.
Qed.

(** X16.  add_argument rejects an argument that holds one of the reserved
    words anywhere and in any letter case, whatever stands before and after
    it. *)
Theorem add_argument_rejects_anywhere self before word after :
  Str.mem (Str.lower word) RESERVED = true ->
  exists msg,
    add_argument self (before ++ word ++ after) = Raise (ValueError msg).
Proof.
  intros M. unfold add_argument.
  assert (R : reserved (before ++ word ++ after) = true).
  { unfold reserved. apply existsb_exists. exists (Str.lower word).
    split; [now apply mem_In|]. rewrite !lower_app. apply contains_app. }
  rewrite R. eauto.
Qed.

Lemma add_argument_rejects_anywhere_witness :
  exists msg,
    add_argument demo_config "--accept-Lang=de,en" = Raise (ValueError msg).
Proof.
  exact (@add_argument_rejects_anywhere demo_config "--accept-" "Lang" "=de,en"
           eq_refl).
Defined.

(** ** The sorted view browser_args *)

Lemma insert_sorted_perm x l : Permutation (insert_sorted x l) (x :: l).
Proof.
  induction l as [|y l IH]; cbn [insert_sorted]; [reflexivity|].
  destruct (String.leb x y); [reflexivity|].
  rewrite IH. apply perm_swap.
Qed.

Lemma insert_sorted_HdRel y x l :
  str_le y x -> HdRel str_le y l -> HdRel str_le y (insert_sorted x l).
Proof.
  intros L H. destruct l as [|z l]; cbn [insert_sorted].
  - now constructor.
  - destruct (String.leb x z); constructor; [assumption|].
    now inversion H.
Qed.

Lemma insert_sorted_Sorted x l :
  Sorted str_le l -> Sorted str_le (insert_sorted x l).
Proof.
  induction l as [|y l IH]; intros S; cbn [insert_sorted].
  - repeat constructor.
  - destruct (String.leb x y) eqn:E.
    + constructor; [assumption|]. now constructor.
    + inversion S as [|? ? S' H]; subst. constructor; [now apply IH|].
      apply insert_sorted_HdRel; [|assumption].
      destruct (String.leb_total x y) as [T|T]; [congruence | exact T].
Qed.

(** X17.  The view browser_args holds the default and the extra arguments,
    each as often as the two lists hold it, in ascending order: it neither
    drops duplicates nor adds the flags that rendering adds. *)
Theorem browser_args_sorted self :
  Sorted str_le (browser_args self)
  /\ Permutation (browser_args self)
                 (_default_browser_args self ++ _browser_args self).
Proof.
  unfold browser_args, sorted.
  induction (_default_browser_args self ++ _browser_args self) as [|x l [S P]].
  - split; constructor.
  - cbn [fold_right]. split.
    + now apply insert_sorted_Sorted.
    + rewrite insert_sorted_perm. now constructor.
Qed.

(** ** Temporary directories that stay behind *)

Lemma os_mkdir_run path w :
  os_mkdir path w
  = match create false path (Dir []) (fs w) with
    | Return t => (Return tt, set_fs (add_trace w (Sys_mkdir path)) t)
    | Raise e => (Raise e, add_trace w (Sys_mkdir path))
    end.
Proof. reflexivity. Qed.

Lemma one_more_dir_created path t t' :
  create false path (Dir []) t = Return t' -> one_more_dir t t'.
Proof.
  intros C. apply create_Return in C.
  destruct C as (comps & name & pos & _ & _ & _ & _ & P). now exists (pos ++ [name]).
Qed.

(** A tree with one more directory is another tree, holds the directories
    and the files of the first, and a path that led to a file still does. *)
Lemma place_changes new comps : forall t t',
  place false comps new t = Return t' -> t' <> t.
Proof.
  induction comps as [|c rest IH]; intros t t' P;
    pose proof (place_Dir _ _ _ _ P) as D;
    destruct t as [entries| | | |]; try discriminate.
  destruct rest as [|c' rest].
  - cbn [place] in P. destruct (dict_get c entries) as [[]|]; try discriminate.
    injection P as <-. intros [= E].
    apply (f_equal (@List.length _)) in E. rewrite length_app in E.
    cbn in E. lia.
  - rewrite place_step in P.
    destruct (dict_get c entries) as [child|] eqn:G; [|discriminate].
    destruct (place false (c' :: rest) new child) as [child'|e] eqn:C;
      [|discriminate].
    injection P as <-. intros [= E].
    apply (IH _ _ C).
    pose proof (dict_get_set_same c child' entries) as S.
    rewrite E, G in S. congruence.
Qed.

Lemma one_more_dir_node_at t t' path x :
  one_more_dir t t' -> node_at t path = Some x -> is_dir_node x = false ->
  node_at t' path = Some x.
Proof.
  intros [comps P]. apply node_at_kept.
  - exact (place_keeps_dirs _ _ _ _ P).
  - exact (place_keeps_files _ _ _ P).
Qed.

(** What mkdtemp does to the tree: one new, empty directory when it
    returns, nothing when it raises; what it raises is an error of the
    file system. *)
Lemma mkdtemp_loop_fs tries : forall dir prefix suffix w o w',
  mkdtemp_loop tries dir prefix suffix w = (o, w') ->
  match o with
  | Return _ => one_more_dir (fs w) (fs w')
  | Raise e => fs w' = fs w /\ e <> BadZipFile
  end.
Proof.
  induction tries as [|tries IH]; intros dir prefix suffix w o w'.
  - cbn. unfold raise. intros [= <- <-]. now split.
  - cbn [mkdtemp_loop]. unfold bind at 1, draw.
    unfold try_except, bind. rewrite os_mkdir_run.
    destruct (create false _ (Dir []) (fs (advance w))) as [t|e] eqn:P.
    + unfold ret. intros [= <- <-]. exact (one_more_dir_created _ _ P).
    + apply create_raises in P.
      destruct e; try contradiction;
        try (unfold raise; intros [= <- <-]; now split).
      intros L. apply IH in L. exact L.
Qed.

Lemma mkdtemp_fs prefix suffix w o w' :
  mkdtemp prefix suffix w = (o, w') ->
  match o with
  | Return _ => one_more_dir (fs w) (fs w')
  | Raise e => fs w' = fs w /\ e <> BadZipFile
  end.
Proof. unfold mkdtemp. apply mkdtemp_loop_fs. Qed.

(** X18.  Given a regular file that is no zip archive, add_extension never
    returns and appends nothing.  The temporary directory is made before the
    archive is opened.  So the failure is either BadZipFile, and then the
    tree has changed: it has one more empty directory than before; or it is
    the failure of making that directory, which is no BadZipFile, and then
    the tree is as it was. *)
Theorem add_extension_not_an_archive self extension_path w x :
  lookup (Path_str (Path_of extension_path)) w = Some x ->
  is_dir_node x = false -> is_zip_node x = false ->
  exists e w',
    add_extension self extension_path w = (Raise e, w')
    /\ fst (run (Call_add_extension extension_path) self w) = self
    /\ (e = BadZipFile /\ one_more_dir (fs w) (fs w') /\ fs w' <> fs w
        \/ e <> BadZipFile /\ fs w' = fs w).
Proof.
  intros L F Z.
  assert (A : exists e w',
             add_extension self extension_path w = (Raise e, w')
             /\ (e = BadZipFile /\ one_more_dir (fs w) (fs w') /\ fs w' <> fs w
                 \/ e <> BadZipFile /\ fs w' = fs w)).
  { unfold add_extension, bind.
    rewrite Path_exists_run, L. cbn [negb].
    rewrite Path_is_file_run, lookup_add_trace, L.
    replace (match x with Dir _ => false | _ => true end) with true
      by (destruct x; [discriminate | reflexivity ..]).
    unfold token_hex, draw.
    destruct (mkdtemp "extension_" _ _) as [[tf|e] w4] eqn:T;
      apply mkdtemp_fs in T; cbn [fs advance add_trace] in T.
    - unfold zip_extractall, bind, sys. rewrite lookup_add_trace.
      assert (L4 : lookup (Path_str (Path_of extension_path)) w4 = Some x).
      { unfold lookup in *. eapply one_more_dir_node_at; eassumption. }
      rewrite L4.
      assert (N : fs w4 <> fs w)
        by (destruct T as (comps & T); eapply place_changes; eassumption).
      destruct x; try discriminate;
        do 2 eexists; (split; [reflexivity|]); left; now repeat split.
    - do 2 eexists. split; [reflexivity|]. right. destruct T. now split. }
  destruct A as (e & w' & A & B). exists e, w'. repeat split; try assumption.
  cbn [run]. now rewrite A.
Qed.

Lemma add_extension_not_an_archive_witness :
  exists e w',
    add_extension root_config "/ext/background.js" extension_world = (Raise e, w')
    /\ fst (run (Call_add_extension "/ext/background.js") root_config
                extension_world) = root_config
    /\ (e = BadZipFile /\ one_more_dir (fs extension_world) (fs w')
        /\ fs w' <> fs extension_world
        \/ e <> BadZipFile /\ fs w' = fs extension_world).
Proof.
  exact (@add_extension_not_an_archive root_config "/ext/background.js"
           extension_world (OtherFile "") eq_refl eq_refl eq_refl).
Defined.

(** What happens there: the directory [/tmp/extension_10] stays behind. *)
Example add_extension_not_an_archive_tree :
  seen (add_extension root_config "/ext/background.js" extension_world)
  = (Raise BadZipFile,
     Dir [("tmp", Dir [("extension_10", Dir [])]);
          ("ext", Dir [("manifest.json", JsonFile (VDict []));
                       ("background.js", OtherFile "");
                       ("vendor", Dir [("manifest.json", JsonFile (VDict []))])])])
  /\ trace (snd (add_extension root_config "/ext/background.js" extension_world))
     = [Sys_stat "/ext/background.js"; Sys_stat "/ext/background.js";
        Sys_mkdir "/tmp/extension_10"; Sys_open_r "/ext/background.js"].
Proof. split; vm_compute; reflexivity. Qed.

(** X19.  A Config built without a profile directory and without a browser
    executable, on a host where no browser is found, makes its temporary
    profile directory first and searches then: when the directory was made,
    the constructor raises what find_chrome_executable raises, in the world
    that mkdtemp left, in which the new directory stays behind; when the
    directory could not be made, it raises the error of mkdtemp. *)
Theorem Config_init_no_browser h a w e :
  truthy_str (Init.user_data_dir a) = false ->
  truthy_str (Init.browser_executable_path a) = false ->
  find_chrome_executable h false = Raise e ->
  match mkdtemp "uc_" "" w with
  | (Return _, w1) =>
      Config_init h a w = (Raise e, w1)
      /\ one_more_dir (fs w) (fs w1) /\ fs w1 <> fs w
  | (Raise e0, w1) => Config_init h a w = (Raise e0, w1) /\ fs w1 = fs w
  end.
Proof.
  intros U E F.
  assert (I : Config_init h a w
              = match mkdtemp "uc_" "" w with
                | (Return _, w1) => (Raise e, w1)
                | (Raise e0, w1) => (Raise e0, w1)
                end).
  { unfold Config_init. cbv zeta. rewrite U, E, F.
    unfold bind at 1. unfold bind at 1. unfold temp_profile_dir, bind at 1.
    destruct (mkdtemp "uc_" "" w) as [[tf|e0] w1]; reflexivity. }
  rewrite I.
  destruct (mkdtemp "uc_" "" w) as [[tf|e0] w1] eqn:T; apply mkdtemp_fs in T.
  - split; [reflexivity|]. split; [exact T|].
    destruct T as (comps & T). eapply place_changes; eassumption.
  - split; [reflexivity | apply T].
Qed.

Lemma Config_init_no_browser_witness :
  let h := mkHost "linux" (fun name => if name =? "PATH" then Some "/usr/bin" else None)
                  "/" ":"%char posixpath.normpath (fun _ => false)
                  (fun _ => true) (Some 1000%Z) 0%Z in
  exists w1,
    mkdtemp "uc_" "" demo_world = (Return "/tmp/uc_0", w1)
    /\ Config_init h Init.default demo_world
       = (Raise (FileNotFoundError not_found_message), w1)
    /\ one_more_dir (fs demo_world) (fs w1) /\ fs w1 <> fs demo_world.
Proof.
  cbv zeta. eexists. split; [vm_compute; reflexivity|].
  exact (@Config_init_no_browser
           (mkHost "linux" (fun name => if name =? "PATH" then Some "/usr/bin" else None)
                   "/" ":"%char posixpath.normpath (fun _ => false)
                   (fun _ => true) (Some 1000%Z) 0%Z)
           Init.default demo_world (FileNotFoundError not_found_message)
           eq_refl eq_refl eq_refl).
Defined.

(** What happens there: [/tmp/uc_0] was made before the search failed. *)
Example Config_init_no_browser_tree :
  seen (Config_init
          (mkHost "linux" (fun name => if name =? "PATH" then Some "/usr/bin" else None)
                  "/" ":"%char posixpath.normpath (fun _ => false)
                  (fun _ => true) (Some 1000%Z) 0%Z)
          Init.default demo_world)
  = (Raise (FileNotFoundError not_found_message),
     Dir [("tmp", Dir [("uc_0", Dir [])]);
          ("usr", Dir [("bin", Dir [("google-chrome", OtherFile "ELF")])])]).
Proof. vm_compute. reflexivity. Qed.

(** ** deep_merge and the empty mapping *)

Lemma merge_fold_fresh d : forall acc,
  NoDup (keys acc ++ keys d) -> fold_left merge_item d acc = acc ++ d.
Proof.
  induction d as [|[k v] d IH]; intros acc N.
  - cbn. now rewrite app_nil_r.
  - cbn [fold_left]. rewrite merge_item_set.
    assert (G : dict_get k acc = None).
    { apply dict_get_none_iff. intros I.
      cbn [keys map fst] in N. apply NoDup_remove_2 in N.
      apply N, in_or_app. now left. }
    rewrite G. cbn [merged]. rewrite (dict_set_absent k v acc G).
    rewrite IH; [now rewrite <- app_assoc|].
    unfold keys in *. rewrite map_app, <- app_assoc. exact N.
Qed.

(** X20.  Merging a mapping into the empty mapping gives that mapping,
    entry for entry and in its order, and merging the empty mapping into a
    mapping leaves it as it is. *)
Theorem deep_merge_empty d :
  distinct (keys d) = true ->
  deep_merge [] d = d /\ deep_merge d [] = d.
Proof.
  intros D. split; [|reflexivity].
  rewrite deep_merge_fold. apply merge_fold_fresh. now apply distinct_NoDup.
Qed.

Lemma deep_merge_empty_witness :
  deep_merge [] images_tree = images_tree /\ deep_merge images_tree [] = images_tree.
Proof. exact (@deep_merge_empty images_tree eq_refl). Defined.

(** ** apply_prefs: a preference file that is no JSON object *)


(** X21.  Where something other than a JSON object lies at the path of the
    preference file (a document that is a list or a scalar, text that is no
    JSON, a directory), apply_prefs returns with the preferences not applied
    and the tree as it was: what it could not read it does not overwrite. *)
Theorem apply_prefs_unreadable_file self w x :
  let prefs_path :=
    posixpath.join (user_data_dir self) ["Default"; "Preferences"] in
  posixpath.is_nil (prefs self) = false ->
  _prefs_applied self = false ->
  lookup prefs_path w = Some x ->
  is_json_object x = false ->
  exists w', apply_prefs self w = (Return self, w') /\ fs w' = fs w.
Proof.
  cbv zeta. intros P A L J.
  destruct (split_prefs_path (user_data_dir self)) as (_ & NP & _).
  cbv zeta in NP.
  destruct (prefs_file_present _ _ L) as (pd & _ & _ & D).
  set (prefs_path := posixpath.join (user_data_dir self) ["Default"; "Preferences"]) in *.
  unfold lookup in L.
  assert (T : apply_prefs_fs self (fs w) = (Return self, fs w)).
  { unfold apply_prefs_fs. rewrite P, A. cbn [orb]. cbv zeta.
    fold prefs_path. rewrite D.
    unfold try_block_fs. cbv zeta. rewrite NP, L.
    destruct x as [entries|doc|doc|members|bytes]; try reflexivity.
    destruct doc; try reflexivity. discriminate. }
  rewrite <- apply_prefs_tree in T. apply seen_eq in T.
  destruct T as (w' & T & F). now exists w'.
Qed.

Lemma apply_prefs_unreadable_file_witness :
  exists w',
    apply_prefs images_config garbled_world = (Return images_config, w')
    /\ fs w' = fs garbled_world.
Proof.
  exact (@apply_prefs_unreadable_file images_config garbled_world
           (OtherFile "{not json") eq_refl eq_refl eq_refl eq_refl).
Defined.
